(** * Cyber-Jianghu server: a shallow embedding of the story engine, the
    image cache and work queue, the embedding normaliser, the Bilibili
    adapter's framing and dedup filter, and the danmaku hub. *)

From Stdlib Require Import String Ascii List ZArith Lia.
From Stdlib Require Import DecimalString Floats.
From stdpp Require Import gmap strings list fin_maps sorting.
Import ListNotations.
Open Scope string_scope.

(* ------------------------------------------------------------------ *)
(** ** Go string helpers (server/internal/infra/comfyui_manager.go)     *)
(* ------------------------------------------------------------------ *)

Module GoStr.

(** [fmt.Sprintf("%d", n)] for a non-negative [n]. *)
Definition itoa (n : nat) : string :=
  NilZero.string_of_uint (Nat.to_uint n).

(** [s[i:i+len(substr)] == substr] *)
Definition slice_eq (s substr : string) (i : nat) : bool :=
  String.eqb (substring i (String.length substr) s) substr.

(** the loop [for i := 0; i <= len(s)-len(substr); i++] *)
Fixpoint find_loop (s substr : string) (i fuel : nat) : Z :=
  match fuel with
  | O => (-1)%Z
  | S fuel' => if slice_eq s substr i then Z.of_nat i
               else find_loop s substr (S i) fuel'
  end.

Definition findSubstring (s substr : string) : Z :=
  if Nat.ltb (String.length s) (String.length substr) then (-1)%Z
  else find_loop s substr 0 (S (String.length s - String.length substr)).

Definition containsSubstring (s substr : string) : bool :=
  Nat.leb (String.length substr) (String.length s)
  && Z.leb 0 (findSubstring s substr).

End GoStr.

(* ------------------------------------------------------------------ *)
(** ** Story engine (server/internal/infra/comfyui_manager.go)          *)
(* ------------------------------------------------------------------ *)

Module StoryEngine.
Import GoStr.

Record StoryOption := mkStoryOption {
  ID : string;
  Text : string;
  Description : string
}.

(** [extractOptionText]: the body is [return ""]. *)
Definition extractOptionText (text prefix : string) : string := "".

Definition optionPatterns : list (list string) :=
  [ ["1."; "2."; "3."];
    ["A."; "B."; "C."];
    ["一、"; "二、"; "三、"] ].

Definition default_options : list StoryOption :=
  [ mkStoryOption "1" "继续前进" "继续探索当前场景";
    mkStoryOption "2" "观察周围" "仔细观察环境细节";
    mkStoryOption "3" "询问NPC" "与附近的人交谈" ].

(** The inner loop over one family: returns [foundAll] and the option
    list, which is shared across families (never reset). *)
Fixpoint scan_patterns (text : string) (i : nat) (patterns : list string)
    (options : list StoryOption) : bool * list StoryOption :=
  match patterns with
  | [] => (true, options)
  | pattern :: rest =>
      if negb (containsSubstring text pattern) then (false, options)
      else
        let optionText := extractOptionText text pattern in
        let options' :=
          if String.eqb optionText "" then options
          else app options [mkStoryOption (itoa (i + 1))
                                         (String.append pattern optionText)
                                         optionText] in
        scan_patterns text (S i) rest options'
  end.

(** The outer loop over [optionPatterns], with its [break]. *)
Fixpoint scan_families (text : string) (families : list (list string))
    (options : list StoryOption) : list StoryOption :=
  match families with
  | [] => options
  | patterns :: rest =>
      let '(foundAll, options') := scan_patterns text 0 patterns options in
      if foundAll && Nat.leb 2 (length options') then options'
      else scan_families text rest options'
  end.

Definition parseOptionsFromResponse (text : string) : list StoryOption :=
  let options := scan_families text optionPatterns [] in
  if Nat.eqb (length options) 0 then default_options else options.

Definition tavern_reply : string := "You step inside… 1. Sit 2. Ask 3. Leave".

(** [splitLines(s, sep)]; its only caller passes the one-byte separator
    ["\n"], so [sep] is a single character here. *)
Fixpoint splitLines_go (s : string) (sep : ascii) (cur : string) : list string :=
  match s with
  | EmptyString => [cur]
  | String c rest =>
      if Ascii.eqb c sep then cur :: splitLines_go rest sep ""
      else splitLines_go rest sep (String.append cur (String c EmptyString))
  end.

Definition splitLines (s : string) (sep : ascii) : list string :=
  splitLines_go s sep "".

Definition newline : ascii := Ascii.ascii_of_nat 10.

(** [extractSceneDescription]: the first line longer than 10 bytes,
    else the first line. *)
Definition extractSceneDescription (text : string) : string :=
  match splitLines text newline with
  | [] => text
  | l0 :: rest =>
      match List.find (fun line => Nat.ltb 10 (String.length line)) (l0 :: rest) with
      | Some line => line
      | None => l0
      end
  end.

(** Values of the [settings map[string]interface{}]: only strings pass
    the [.(string)] assertions. *)
Inductive SettingValue := SString (s : string) | SOther.

Record StoryState := mkStoryState {
  CurrentNode : string;
  CurrentScene : string;
  PreviousText : string;
  Summary : string;
  Protagonist : string;
  NPCs : string;
  Genre : string;
  Tone : string;
  Style : string;
  Options : list StoryOption;
  Custom : gmap string SettingValue
}.

Definition set_after_generation (st : StoryState) (prev : string)
    (opts : list StoryOption) : StoryState :=
  mkStoryState (CurrentNode st) (CurrentScene st) prev (Summary st)
    (Protagonist st) (NPCs st) (Genre st) (Tone st) (Style st) opts (Custom st).

Definition set_scene (st : StoryState) (scene : string) : StoryState :=
  mkStoryState (CurrentNode st) scene (PreviousText st) (Summary st)
    (Protagonist st) (NPCs st) (Genre st) (Tone st) (Style st) (Options st)
    (Custom st).

(** [settings[k].(string)] with the comma-ok form: "" when absent or not a
    string. *)
Definition setting_string (settings : gmap string SettingValue) (k : string)
    : string :=
  match settings !! k with
  | Some (SString s) => s
  | _ => ""
  end.

Definition or_default (v d : string) : string :=
  if String.eqb v "" then d else v.

(** The outcome of the prompt rendering and [glm5Client.Chat] call: an
    error, or the list of returned choices' message contents. Retrieval
    from the memory store only feeds the prompt and is non-fatal, so it
    does not appear. *)
Inductive ChatOutcome := ChatError | ChatChoices (contents : list string).

Inductive StoryError := StoryNotFound (id : string) | GenerationFailed.

Record StoryResponse := mkStoryResponse {
  RespText : string;
  RespScene : string;
  RespOptions : list StoryOption
}.


(** [GenerateStorySegment]: returns the new state map and the result. *)
Definition GenerateStorySegment (e : gmap string StoryState) (storyID : string)
    (llm : ChatOutcome) : gmap string StoryState * (StoryError + StoryResponse) :=
  match e !! storyID with
  | None => (e, inl (StoryNotFound storyID))
  | Some _ =>
      match llm with
      | ChatError => (e, inl GenerationFailed)
      | ChatChoices [] => (e, inl GenerationFailed)
      | ChatChoices (generatedText :: _) =>
          let options := parseOptionsFromResponse generatedText in
          let e' := match e !! storyID with
                    | Some cur => <[storyID := set_after_generation cur generatedText options]> e
                    | None => e
                    end in
          (e', inr (mkStoryResponse generatedText
                      (extractSceneDescription generatedText) options))
      end
  end.

Definition initial_state (settings : gmap string SettingValue) : StoryState :=
  let protagonist := setting_string settings "protagonist" in
  let genre := or_default (setting_string settings "genre") "武侠" in
  let tone := or_default (setting_string settings "tone") "史诗" in
  let style := or_default (setting_string settings "style") "古典" in
  mkStoryState "start" "故事开始" ""
    (String.append genre (String.append "主角 "
       (String.append protagonist "的故事开始了")))
    protagonist "" genre tone style [] ∅.

(** [CreateStory]: the fresh state is stored under [storyID] with no
    existence check, then the first segment is generated; on success the
    same state object gets the scene, text and options of the response. *)
Definition CreateStory (e : gmap string StoryState) (storyID : string)
    (settings : gmap string SettingValue) (llm : ChatOutcome)
    : gmap string StoryState * (StoryError + StoryState) :=
  let st := initial_state settings in
  let e1 := <[storyID := st]> e in
  match GenerateStorySegment e1 storyID llm with
  | (e2, inl err) => (e2, inl GenerationFailed)
  | (e2, inr resp) =>
      let st' := set_scene (set_after_generation st (RespText resp)
                              (RespOptions resp)) (RespScene resp) in
      (<[storyID := st']> e2, inr st')
  end.

(** The state [CreateStory] leaves under the id after a successful
    generation of [t]. *)
Definition created_state (settings : gmap string SettingValue) (t : string)
    : StoryState :=
  set_scene (set_after_generation (initial_state settings) t
               (parseOptionsFromResponse t)) (extractSceneDescription t).

Definition old_story : StoryState :=
  set_after_generation (initial_state {["protagonist" := SString "Li"]})
    "an earlier segment" [].

End StoryEngine.

(* ------------------------------------------------------------------ *)
(** ** Image cache (server/internal/generators/image_cache.go)          *)
(* ------------------------------------------------------------------ *)

Module ImageCache.

Definition bytes := list Byte.byte.

(** A file system: path to contents. *)
Abbreviation FS := (gmap string bytes).

(** [filepath.Join(dir, name)] for a clean directory and a plain name. *)
Definition Join (dir name : string) : string :=
  String.append dir (String.append "/" name).

(** [CacheEntry]; times are Unix instants, 0 being Go's zero [time.Time].
    [Options] and [Metadata] are only serialised, never read back by
    [Get], [Put] or the eviction, and are left out of the record; [Put]
    takes the float fields of [Options], which decide whether the
    serialisation succeeds. *)
Record CacheEntry := mkCacheEntry {
  Key : string;
  FilePath : string;
  ImageData : bytes;
  Prompt : string;
  CreatedAt : Z;
  LastAccessed : Z;
  AccessCount : Z;
  FileSize : Z;
  Hits : Z
}.

(** The JSON form of an entry in the [.meta] file: [ImageData] is tagged
    [json:"-"], so it is not in it. *)
Record CacheMeta := mkCacheMeta {
  MKey : string;
  MFilePath : string;
  MPrompt : string;
  MCreatedAt : Z;
  MLastAccessed : Z;
  MAccessCount : Z;
  MFileSize : Z;
  MHits : Z
}.

Definition meta_of (e : CacheEntry) : CacheMeta :=
  mkCacheMeta (Key e) (FilePath e) (Prompt e) (CreatedAt e) (LastAccessed e)
    (AccessCount e) (FileSize e) (Hits e).

(** [json.Unmarshal] into a zero [CacheEntry]: [ImageData] stays nil. *)
Definition entry_of_meta (m : CacheMeta) : CacheEntry :=
  mkCacheEntry (MKey m) (MFilePath m) [] (MPrompt m) (MCreatedAt m)
    (MLastAccessed m) (MAccessCount m) (MFileSize m) (MHits m).

Record CacheStats := mkCacheStats {
  SHits : Z;
  SMisses : Z;
  STotalEntries : Z;
  STotalSize : Z
}.

Record ImageCache := mkImageCache {
  entries : gmap string CacheEntry;
  directory : string;
  maxEntries : Z;
  ttl : Z;
  stats : CacheStats
}.

Definition NewImageCache (dir : string) (maxE : Z) (t : Z) : ImageCache :=
  mkImageCache ∅ dir maxE t (mkCacheStats 0 0 0 0).

Definition set_entries (c : ImageCache) (m : gmap string CacheEntry)
    : ImageCache :=
  mkImageCache m (directory c) (maxEntries c) (ttl c) (stats c).

Definition set_stats (c : ImageCache) (st : CacheStats) : ImageCache :=
  mkImageCache (entries c) (directory c) (maxEntries c) (ttl c) st.

Definition add_hit (st : CacheStats) : CacheStats :=
  mkCacheStats (SHits st + 1) (SMisses st) (STotalEntries st) (STotalSize st).

Definition add_miss (st : CacheStats) : CacheStats :=
  mkCacheStats (SHits st) (SMisses st + 1) (STotalEntries st) (STotalSize st).

Definition add_entry (st : CacheStats) (size : Z) : CacheStats :=
  mkCacheStats (SHits st) (SMisses st) (STotalEntries st + 1)
    (STotalSize st + size).

Definition remove_entry (st : CacheStats) (size : Z) : CacheStats :=
  mkCacheStats (SHits st) (SMisses st) (STotalEntries st - 1)
    (STotalSize st - size).

(** [os.Remove] of a blob and its [.meta] sibling, errors ignored. *)
Definition remove_files (fs : FS) (path : string) : FS :=
  delete (String.append path ".meta") (delete path fs).

(** [time.Since(t) > ttl], the expiry test of [Get] (with [ttl > 0]). *)
Definition expired (c : ImageCache) (now : Z) (e : CacheEntry) : bool :=
  Z.ltb 0 (ttl c) && Z.ltb (ttl c) (now - CreatedAt e).

Inductive CacheError := CacheMissErr | CacheExpired | ReadFailed | WriteFailed | MarshalFailed.

Definition touch (e : CacheEntry) (now : Z) : CacheEntry :=
  mkCacheEntry (Key e) (FilePath e) (ImageData e) (Prompt e) (CreatedAt e)
    now (AccessCount e + 1) (FileSize e) (Hits e + 1).

(** [Get]: returns the new cache, the file system and the result. *)
Definition Get (c : ImageCache) (fs : FS) (now : Z) (key : string)
    : ImageCache * FS * (CacheError + bytes) :=
  match entries c !! key with
  | None => (set_stats c (add_miss (stats c)), fs, inl CacheMissErr)
  | Some entry =>
      if expired c now entry then
        (set_stats (set_entries c (delete key (entries c))) (add_miss (stats c)),
         remove_files fs (FilePath entry), inl CacheExpired)
      else
        let c1 := set_stats (set_entries c (<[key := touch entry now]> (entries c)))
                    (add_hit (stats c)) in
        if Nat.ltb 0 (length (ImageData entry)) then
          match fs !! FilePath entry with
          | Some data => (c1, fs, inr data)
          | None => (set_stats c1 (add_miss (stats c1)), fs, inl ReadFailed)
          end
        else (c1, fs, inr (ImageData entry))
  end.

(** [Invalidate]. *)
Definition Invalidate (c : ImageCache) (fs : FS) (key : string)
    : ImageCache * FS :=
  match entries c !! key with
  | None => (c, fs)
  | Some entry =>
      let fs' := if String.eqb (FilePath entry) "" then fs
                 else remove_files fs (FilePath entry) in
      (set_stats (set_entries c (delete key (entries c)))
         (remove_entry (stats c) (FileSize entry)), fs')
  end.

(** The search loop of [evictOldest] over the map in iteration order,
    with [oldestTime.IsZero() || entry.LastAccessed.Before(oldestTime)]. *)
Definition oldest_step (acc : string * Z) (kv : string * CacheEntry)
    : string * Z :=
  if Z.eqb (snd acc) 0 || Z.ltb (LastAccessed (snd kv)) (snd acc)
  then (fst kv, LastAccessed (snd kv)) else acc.

Definition find_oldest (l : list (string * CacheEntry)) : string * Z :=
  fold_left oldest_step l ("", 0%Z).

(** [c.mu.Lock()] followed by the critical section [body]: [None] when
    the calling goroutine already holds [c.mu], since [sync.RWMutex] is not
    reentrant and the lock is never released, so the call does not return. *)
Definition with_lock {A : Type} (held : bool) (body : A) : option A :=
  if held then None else Some body.

(** The float64 fields of the [*GenerateOptions] stored in
    [CacheEntry.Options] ([CFGScale], [LoraStrength]); its other fields are
    ints and strings, which [json.Marshal] always encodes. *)
Record OptFloats := mkOptFloats {
  OCFGScale : float;
  OLoraStrength : float
}.

(** [json.Marshal] refuses a NaN or infinite float64
    ([UnsupportedValueError]); a nil [opts] is encoded as [null]. The other
    fields of an entry made by [Put] always encode ([time.Now()] is within
    years 0..9999, [Metadata] holds ints and strings). *)
Definition json_float_ok (x : float) : bool :=
  negb (PrimFloat.is_nan x) && negb (PrimFloat.is_infinity x).

Definition options_marshalable (opts : option OptFloats) : bool :=
  match opts with
  | None => true
  | Some o => json_float_ok (OCFGScale o) && json_float_ok (OLoraStrength o)
  end.

Section WithIteration.

(** Go's map iteration order, which the language leaves unspecified: any
    enumeration of the map's bindings. *)
Variable iter_order : gmap string CacheEntry -> list (string * CacheEntry).

(** [evictOldest], called with [c.mu] already held ([held]) or not; it
    calls the public [Invalidate], which takes [c.mu] again. *)
Definition evictOldest (held : bool) (c : ImageCache) (fs : FS)
    : option (ImageCache * FS) :=
  let oldestKey := fst (find_oldest (iter_order (entries c))) in
  if String.eqb oldestKey "" then Some (c, fs)
  else with_lock held (Invalidate c fs oldestKey).

(** [os.WriteFile] may fail; [writable] says which paths it succeeds on. *)
Variable writable : string -> bool.
(** The bytes of [json.MarshalIndent] of an entry's JSON form with its
    options, when it succeeds. *)
Variable marshal : CacheMeta -> option OptFloats -> bytes.

Definition blob_path (dir key : string) : string :=
  Join dir (String.append key ".png").

(** The entry [Put] creates. *)
Definition put_entry (dir key : string) (now : Z) (data : bytes)
    (prompt : string) : CacheEntry :=
  mkCacheEntry key (blob_path dir key) data prompt now now 0
    (Z.of_nat (length data)) 0.

(** [Put], which holds [c.mu] throughout: blob first, then
    [json.MarshalIndent], then the [.meta] file, then the map, then the
    eviction check [len(c.entries) > c.maxEntries]. [None]: the call never
    returns. *)
Definition Put (c : ImageCache) (fs : FS) (now : Z) (key : string)
    (data : bytes) (prompt : string) (opts : option OptFloats)
    : option (ImageCache * FS * (CacheError + unit)) :=
  let filePath := blob_path (directory c) key in
  if negb (writable filePath) then Some (c, fs, inl WriteFailed) else
  let fs1 := <[filePath := data]> fs in
  let entry := put_entry (directory c) key now data prompt in
  let metaPath := String.append filePath ".meta" in
  if negb (options_marshalable opts) then Some (c, fs1, inl MarshalFailed) else
  if negb (writable metaPath) then Some (c, fs1, inl WriteFailed) else
  let fs2 := <[metaPath := marshal (meta_of entry) opts]> fs1 in
  let c1 := set_stats (set_entries c (<[key := entry]> (entries c)))
              (add_entry (stats c) (Z.of_nat (length data))) in
  if Z.ltb (maxEntries c1) (Z.of_nat (size (entries c1))) then
    match evictOldest true c1 fs2 with
    | Some (c2, fs3) => Some (c2, fs3, inr tt)
    | None => None
    end
  else Some (c1, fs2, inr tt).

End WithIteration.

(** One directory entry of [os.ReadDir]: its name and [IsDir()]. *)
Record DirEntry := mkDirEntry { DName : string; DIsDir : bool }.

Section WithUnmarshal.

(** [json.Unmarshal] of a [.meta] file; [None] when it fails. *)
Variable unmarshal : bytes -> option CacheMeta.

Definition set_file_size (e : CacheEntry) (sz : Z) : CacheEntry :=
  mkCacheEntry (Key e) (FilePath e) (ImageData e) (Prompt e) (CreatedAt e)
    (LastAccessed e) (AccessCount e) sz (Hits e).

(** One iteration of the scan loop of [Initialize]. *)
Definition init_step (now : Z) (st : ImageCache * FS) (d : DirEntry)
    : ImageCache * FS :=
  let '(c, fs) := st in
  if DIsDir d then (c, fs) else
  let metaPath := Join (directory c) (String.append (DName d) ".meta") in
  match fs !! metaPath with
  | None => (c, fs)
  | Some metaData =>
      match unmarshal metaData with
      | None => (c, fs)
      | Some m =>
          let e0 := entry_of_meta m in
          if negb (Z.eqb (ttl c) 0) && Z.ltb (ttl c) (now - CreatedAt e0) then
            (c, delete metaPath (delete (Join (directory c) (DName d)) fs))
          else
            let e1 := match fs !! Join (directory c) (DName d) with
                      | Some blob => set_file_size e0 (Z.of_nat (length blob))
                      | None => e0
                      end in
            (set_stats (set_entries c (<[Key e1 := e1]> (entries c)))
               (add_entry (stats c) (FileSize e1)), fs)
      end
  end.

(** [Initialize] on an existing directory whose listing is [listing]. *)
Definition Initialize (c : ImageCache) (fs : FS) (now : Z)
    (listing : list DirEntry) : ImageCache * FS :=
  fold_left (init_step now) listing (c, fs).

End WithUnmarshal.

(** A full cache: two entries with [maxEntries = 2]. *)
Definition ent (k : string) (la : Z) : CacheEntry :=
  mkCacheEntry k (blob_path "data" k) [Byte.x01] "" la la 0 1 0.

Definition cache2 : ImageCache :=
  mkImageCache (<["a" := ent "a" 5]> {["b" := ent "b" 3]}) "data" 2 0
    (mkCacheStats 0 0 2 2).

(** The metadata file of an entry restored by [Initialize]. *)
Definition restored_meta : CacheMeta :=
  mkCacheMeta "a" "data/a.png" "" 5 5 0 0 0.

End ImageCache.

(* ------------------------------------------------------------------ *)
(** ** Image work queue (server/internal/generators/image_queue.go)     *)
(* ------------------------------------------------------------------ *)

Module ImageQueue.

Definition bytes := list Byte.byte.

(** The generation options a request carries; [GenerateCacheKey] hashes
    them, so equal options mean equal fingerprints. The float fields
    (CFG scale, LoRA strength) are left out. *)
Record GenerateOptions := mkGenerateOptions {
  GPrompt : string;
  Width : Z;
  Height : Z;
  Steps : Z;
  Model : string;
  Lora : string;
  Seed : Z
}.

Record QueueRequest := mkQueueRequest {
  RID : string;
  ROptions : GenerateOptions;
  ResultCh : nat   (** the identity of the caller's result channel *)
}.

Record QueueResult := mkQueueResult {
  QID : string;
  QImageData : bytes
}.

(** A worker goroutine: waiting on [q.requests], or inside
    [comfyClient.GenerateImage] for a request. *)
Inductive Worker := Idle | Busy (r : QueueRequest).

(** The queue. [calls] logs the back-end invocations, [sent] the results
    pushed to result channels, [accepted] the requests [Enqueue] took
    (a ghost log); [crashed] records a panicking worker. *)
Record ImageQueue := mkImageQueue {
  requests : list QueueRequest;
  workers : list Worker;
  results : gmap string QueueResult;
  calls : list GenerateOptions;
  sent : list (nat * QueueResult);
  accepted : list QueueRequest;
  crashed : bool
}.

(** [make(chan *QueueRequest, 100)] *)
Definition queueCap : nat := 100.


Inductive QueueError := QueueFull.

(** [Enqueue]: a non-blocking send on the buffered channel. *)
Definition Enqueue (q : ImageQueue) (req : QueueRequest)
    : ImageQueue * (QueueError + unit) :=
  if Nat.ltb (length (requests q)) queueCap then
    (mkImageQueue (app (requests q) [req]) (workers q) (results q) (calls q)
       (sent q) (app (accepted q) [req]) (crashed q), inr tt)
  else (q, inl QueueFull).

(** The back-end's answer to one [GenerateImage] call. On an error it
    returns a nil result, and the worker's [imageData.ImageData] then
    dereferences nil. *)
Inductive GenOutcome := GenOk (data : bytes) | GenErr.

(** The worker loop, one step at a time. *)
Inductive step : ImageQueue -> ImageQueue -> Prop :=
| step_enqueue q req q' res :
    crashed q = false ->
    Enqueue q req = (q', res) -> step q q'
| step_take q w req rest :
    crashed q = false ->
    workers q !! w = Some Idle -> requests q = req :: rest ->
    step q (mkImageQueue rest (<[w := Busy req]> (workers q)) (results q)
              (app (calls q) [ROptions req]) (sent q) (accepted q) (crashed q))
| step_finish q w req data (delivered : bool) :
    crashed q = false ->
    workers q !! w = Some (Busy req) ->
    let res := mkQueueResult (RID req) data in
    step q (mkImageQueue (requests q) (<[w := Idle]> (workers q))
              (<[RID req := res]> (results q)) (calls q)
              (if delivered then app (sent q) [(ResultCh req, res)] else sent q)
              (accepted q) (crashed q))
| step_fail q w req :
    crashed q = false ->
    workers q !! w = Some (Busy req) ->
    step q (mkImageQueue (requests q) (workers q) (results q) (calls q)
              (sent q) (accepted q) true).

Definition reachable (q0 : ImageQueue) : ImageQueue -> Prop :=
  rtc step q0.





End ImageQueue.

(* ------------------------------------------------------------------ *)
(** ** Embedding normalisation (server/internal/rag/embedding.go)       *)
(* ------------------------------------------------------------------ *)

Module Embedding.
Local Open Scope float_scope.

(** [float64] is the kernel's binary64 type [float]; each [+], [*], [/]
    and [math.Sqrt] rounds once, as the Go compiler emits them on amd64
    (no fused multiply-add). [norm == 0] is IEEE equality [=?]. *)

(** [for _, v := range vector { norm += v * v }] *)
Definition sum_squares (vector : list float) : float :=
  fold_left (fun acc v => acc + v * v) vector 0.

(** [NormalizeVector] *)
Definition NormalizeVector (vector : list float) : list float :=
  match vector with
  | [] => vector
  | _ =>
      let norm := sqrt (sum_squares vector) in
      if norm =? 0 then vector
      else map (fun v => v / norm) vector
  end.

Section Batch.

(** [s.createEmbedding] on one batch: the returned embeddings, or an
    error (transport, decoding, or an API error object). *)
Variable createEmbedding : list string -> option (list (list float)).
Variable batchSize : nat.

Fixpoint batches (fuel : nat) (texts : list string) : list (list string) :=
  match fuel with
  | O => []
  | S fuel' =>
      match texts with
      | [] => []
      | _ => firstn batchSize texts :: batches fuel' (skipn batchSize texts)
      end
  end.

(** [embedBatchUncached]: each batch's vectors are normalised and
    appended, with no check on them. *)
Fixpoint embed_batches (bs : list (list string)) : option (list (list float)) :=
  match bs with
  | [] => Some []
  | b :: rest =>
      match createEmbedding b with
      | None => None
      | Some data =>
          match embed_batches rest with
          | None => None
          | Some vs => Some (app (map NormalizeVector data) vs)
          end
      end
  end.

Definition embedBatchUncached (texts : list string) : option (list (list float)) :=
  embed_batches (batches (length texts) texts).

End Batch.

End Embedding.

(* ------------------------------------------------------------------ *)
(** ** Bilibili adapter (server/internal/adapters/bilibili.go)          *)
(* ------------------------------------------------------------------ *)

Module Bilibili.
Import GoStr.
Local Open Scope Z_scope.

Definition bytes := list Byte.byte.

Definition headerLength : Z := 16.
Definition operationMessage : Z := 5.

(** [b[i]] for an in-range index. *)
Definition byte_at (buf : bytes) (i : Z) : Z :=
  Z.of_N (Byte.to_N (nth (Z.to_nat i) buf Byte.x00)).

(** [binary.BigEndian.Uint32(data[i:i+4])] *)
Definition be32 (buf : bytes) (i : Z) : Z :=
  byte_at buf i * 16777216 + byte_at buf (i + 1) * 65536
  + byte_at buf (i + 2) * 256 + byte_at buf (i + 3).

(** [data[lo:hi]] on a slice whose backing array is [backing] (the
    received bytes followed by the spare capacity): Go checks
    [0 <= lo <= hi <= cap(data)] and panics otherwise. *)
Definition go_slice (backing : bytes) (lo hi : Z) : option bytes :=
  if (0 <=? lo) && (lo <=? hi) && (hi <=? Z.of_nat (length backing)) then
    Some (firstn (Z.to_nat (hi - lo)) (skipn (Z.to_nat lo) backing))
  else None.

(** What [handleMessage] does with a buffer: the bodies it hands to
    [parseDanmaku], in order, or a runtime panic (of the slicing or of
    [parseDanmaku]). *)
Inductive HandleResult := Handled (bodies : list bytes) | Panicked.

Section WithDanmakuJson.

(** The JSON part of [parseDanmaku], which is not modelled: whether
    [json.Unmarshal(body, &msg)] succeeds with [msg.Cmd == "DANMU_MSG"],
    [len(msg.Info) > 0] and [msg.Info[0]] an array of exactly one element,
    as in [{"cmd":"DANMU_MSG","info":[[0]]}]. *)
Variable danmu_info0_singleton : bytes -> bool.

(** [parseDanmaku(body)] panics exactly when it reaches [infoArray[1]]
    with [len(infoArray) == 1]: the body is longer than 16 bytes, starts
    with ['{'], and decodes as above. No other expression of it can panic
    ([bodyStr[0]] is in range, [info[2]] is guarded). *)
Definition parseDanmaku_panics (body : bytes) : bool :=
  Nat.ltb 16 (length body)
  && match body with Byte.x7b :: _ => true | _ => false end
  && danmu_info0_singleton body.

(** The loop [for offset < len(data)] of [handleMessage]; [len] is
    [len(data)], [backing] holds [data] and its spare capacity. *)
Fixpoint handle_loop (fuel : nat) (backing : bytes) (len offset : Z)
    (acc : list bytes) : HandleResult :=
  match fuel with
  | O => Handled acc
  | S fuel' =>
      if offset <? len then
        if len <? offset + headerLength then Handled acc
        else
          let packetLen := be32 backing offset in
          let operation := be32 backing (offset + 8) in
          if packetLen <? headerLength then Handled acc
          else if operation =? operationMessage then
            match go_slice backing (offset + headerLength) (offset + packetLen) with
            | None => Panicked
            | Some body =>
                if parseDanmaku_panics body then Panicked
                else handle_loop fuel' backing len (offset + packetLen)
                       (app acc [body])
            end
          else handle_loop fuel' backing len (offset + packetLen) acc
      else Handled acc
  end.

(** [handleMessage(data)] for a slice [data] with spare capacity [spare].
    Each round advances [offset] by at least 16, so [len(data) + 1]
    rounds are enough. *)
Definition handleMessage (data spare : bytes) : HandleResult :=
  handle_loop (S (length data)) (app data spare) (Z.of_nat (length data)) 0 [].

End WithDanmakuJson.

(** The body [{"cmd":"DANMU_MSG","info":[[0]]}]: a DANMU_MSG whose
    [info[0]] has a single element. *)
Definition short_info_body : bytes :=
  [Byte.x7b; Byte.x22; Byte.x63; Byte.x6d; Byte.x64; Byte.x22; Byte.x3a; Byte.x22;
   Byte.x44; Byte.x41; Byte.x4e; Byte.x4d; Byte.x55; Byte.x5f; Byte.x4d; Byte.x53;
   Byte.x47; Byte.x22; Byte.x2c; Byte.x22; Byte.x69; Byte.x6e; Byte.x66; Byte.x6f;
   Byte.x22; Byte.x3a; Byte.x5b; Byte.x5b; Byte.x30; Byte.x5d; Byte.x5d; Byte.x7d].

(** A MESSAGE header announcing a packet of [0xFFFFFFFF] bytes, with no
    body received. *)
Definition truncated_frame : bytes :=
  [Byte.xff; Byte.xff; Byte.xff; Byte.xff; Byte.x00; Byte.x10; Byte.x00; Byte.x01;
   Byte.x00; Byte.x00; Byte.x00; Byte.x05; Byte.x00; Byte.x00; Byte.x00; Byte.x01].

(** The dedup and keyword filter state of the adapter. *)
Record DedupState := mkDedupState {
  recentDanmaku : gmap string Z;
  dedupWindow : Z;
  filterKeywords : list string;
  lastDedupTime : Z
}.

(** [NewBilibiliAdapter]: a 60 s window and no keywords. *)
Definition newDedupState : DedupState := mkDedupState ∅ 60 [] 0.

(** [contains] of bilibili.go: the same byte search as
    [containsSubstring]. *)
Definition contains (s substr : string) : bool := containsSubstring s substr.

(** [cleanupOldDanmaku(now)] *)
Definition cleanupOldDanmaku (st : DedupState) (now : Z) : gmap string Z :=
  filter (fun kv => ~ (now - kv.2 > dedupWindow st)%Z) (recentDanmaku st).

(** [shouldSendDanmaku] at Unix second [now]. *)
Definition shouldSendDanmaku (st : DedupState) (now : Z) (text : string)
    : DedupState * bool :=
  let st1 := if now - lastDedupTime st >? 300 then
               mkDedupState (cleanupOldDanmaku st now) (dedupWindow st)
                 (filterKeywords st) now
             else st in
  let dup := match recentDanmaku st1 !! text with
             | Some lastSeen => now - lastSeen <? dedupWindow st1
             | None => false
             end in
  if dup then (st1, false)
  else if existsb (contains text) (filterKeywords st1) then (st1, false)
  else (st1, true).

(** [recordDanmaku] at Unix second [now]. *)
Definition recordDanmaku (st : DedupState) (now : Z) (text : string)
    : DedupState :=
  mkDedupState (<[text := now]> (recentDanmaku st)) (dedupWindow st)
    (filterKeywords st) (lastDedupTime st).

(** The end of [parseDanmaku] for an extracted text at second [now]:
    [danmakuText != "" && b.shouldSendDanmaku(danmakuText)], then record
    and publish. The check and the record read the clock within the same
    call; both are taken at [now]. *)
Definition filter_step (st : DedupState) (item : string * Z)
    : DedupState * bool :=
  let '(text, now) := item in
  if String.eqb text "" then (st, false)
  else
    let '(st1, ok) := shouldSendDanmaku st now text in
    if ok then (recordDanmaku st1 now text, true) else (st1, false).

(** A sequence of extracted texts with their seconds: the final state
    and the published ones. *)
Fixpoint run_filter (st : DedupState) (items : list (string * Z))
    : DedupState * list (string * Z) :=
  match items with
  | [] => (st, [])
  | item :: rest =>
      let '(st1, ok) := filter_step st item in
      let '(st2, pub) := run_filter st1 rest in
      (st2, if ok then item :: pub else pub)
  end.

Definition count_text (x : string) (l : list (string * Z)) : nat :=
  length (List.filter (fun p => String.eqb (fst p) x) l).

(** The seconds at which [x] occurs in a sequence. *)
Definition occurrences (x : string) (l : list (string * Z)) : list Z :=
  map snd (List.filter (fun p => String.eqb (fst p) x) l).

(** [time.Now().Unix()] never decreases along the read loop. *)
Definition clock_monotone (l : list (string * Z)) : Prop :=
  StronglySorted (fun a b : string * Z => (a.2 <= b.2)%Z) l.

(** The table entry of the state after the periodic cleanup. *)
Definition table_after_cleanup (st : DedupState) (now : Z) : gmap string Z :=
  if (now - lastDedupTime st >? 300)%Z then cleanupOldDanmaku st now
  else recentDanmaku st.

End Bilibili.

(* ------------------------------------------------------------------ *)
(** ** The danmaku hub (web/websocket hub: DanmakuHub, Client)          *)
(* ------------------------------------------------------------------ *)

Module Hub.
Local Open Scope Z_scope.

Definition bytes := list Byte.byte.

(** [interfaces.Danmaku], the fields the hub serialises. *)
Record Danmaku := mkDanmaku {
  Username : string;
  UserID : string;
  Content : string;
  Timestamp : Z
}.

(** A [Client]: its id and its buffered [Send] channel, as the frames
    queued in it and its capacity. *)
Record Client := mkClient {
  ID : string;
  Send : list bytes;
  SendCap : nat
}.

(** [DanmakuHub]: the client table and the buffered [broadcast] inbox. *)
Record DanmakuHub := mkHub {
  clients : gmap string Client;
  broadcast : list Danmaku
}.

(** [make(chan interfaces.Danmaku, 1000)] and [make(chan []byte, 256)]. *)
Definition broadcastCap : nat := 1000.
Definition sendCap : nat := 256.

Definition NewDanmakuHub : DanmakuHub := mkHub ∅ [].

(** [select { case client.Send <- data: ... default: ... }]: the frame is
    queued when the buffer has room and dropped otherwise. *)
Definition try_send (c : Client) (data : bytes) : Client * bool :=
  if decide (length (Send c) < SendCap c)%nat
  then (mkClient (ID c) (app (Send c) [data]) (SendCap c), true)
  else (c, false).

(** [registerClient]: a fresh client with an empty 256-slot buffer. *)
Definition registerClient (h : DanmakuHub) (id : string) : DanmakuHub :=
  mkHub (<[id := mkClient id [] sendCap]> (clients h)) (broadcast h).

(** [unregisterClient]: removes the client (its channel is closed). *)
Definition unregisterClient (h : DanmakuHub) (id : string) : DanmakuHub :=
  mkHub (delete id (clients h)) (broadcast h).

(** The welcome frame of the WebSocket handler: a non-blocking send. *)
Definition welcome (h : DanmakuHub) (id : string) (w : bytes) : DanmakuHub :=
  match clients h !! id with
  | Some c => mkHub (<[id := fst (try_send c w)]> (clients h)) (broadcast h)
  | None => h
  end.

(** [writePump] takes the next frame from the client's channel. *)
Definition writePump (h : DanmakuHub) (id : string) : DanmakuHub :=
  match clients h !! id with
  | Some c =>
      match Send c with
      | [] => h
      | _ :: rest => mkHub (<[id := mkClient (ID c) rest (SendCap c)]> (clients h))
                       (broadcast h)
      end
  | None => h
  end.

(** [Broadcast(danmaku)]: a non-blocking send into the inbox. *)
Definition Broadcast (h : DanmakuHub) (d : Danmaku) : DanmakuHub :=
  if decide (length (broadcast h) < broadcastCap)%nat
  then mkHub (clients h) (app (broadcast h) [d])
  else h.

Section WithMarshal.
(** [json.Marshal] of the envelope built from a danmaku and
    [time.Now().Unix()]; [None] is a marshalling error. *)
Variable marshal : Danmaku -> Z -> option bytes.

(** [broadcastDanmaku(danmaku)] at second [now]: one serialisation, then
    [try_send] into every client's channel; the second component is
    [sentCount]. The channels are distinct, so the order in which the
    [range] visits the clients does not change any of them. *)
Definition broadcastDanmaku (h : DanmakuHub) (d : Danmaku) (now : Z)
    : DanmakuHub * nat :=
  match marshal d now with
  | None => (h, 0%nat)
  | Some data =>
      (mkHub (fmap (fun c => fst (try_send c data)) (clients h)) (broadcast h),
       size (filter (fun kv : string * Client =>
                       (length (Send kv.2) < SendCap kv.2)%nat) (clients h)))
  end.

(** The hub's [Run] loop and the goroutines around it. *)
Inductive step : DanmakuHub -> DanmakuHub -> Prop :=
| step_register h id : step h (registerClient h id)
| step_unregister h id : step h (unregisterClient h id)
| step_welcome h id w : step h (welcome h id w)
| step_write h id : step h (writePump h id)
| step_Broadcast h d : step h (Broadcast h d)
| step_run h d rest now :
    broadcast h = d :: rest ->
    step h (fst (broadcastDanmaku (mkHub (clients h) rest) d now)).

Definition reachable (h : DanmakuHub) : Prop := rtc step NewDanmakuHub h.

End WithMarshal.

(** The bounds the hub keeps: every client queue and the inbox. *)
Definition bounded (h : DanmakuHub) : Prop :=
  (forall id c, clients h !! id = Some c -> (length (Send c) <= SendCap c)%nat) /\
  (length (broadcast h) <= broadcastCap)%nat.

End Hub.

(* ------------------------------------------------------------------ *)
(** ** More string helpers (infra/comfyui_manager.go)                   *)
(* ------------------------------------------------------------------ *)

Module GoStrMore.
Import GoStr.

(** The loop of [stringsContains]. *)
Fixpoint strings_contains_loop (s substr : string) (i fuel : nat) : bool :=
  match fuel with
  | O => false
  | S fuel' => slice_eq s substr i || strings_contains_loop s substr (S i) fuel'
  end.

(** [stringsContains]: [for i := 0; i <= len(s)-len(substr); i++]. *)
Definition stringsContains (s substr : string) : bool :=
  if Nat.ltb (String.length s) (String.length substr) then false
  else strings_contains_loop s substr 0 (S (String.length s - String.length substr)).

(** [contains] of comfyui_manager.go (documented as case-insensitive). *)
Definition contains (s substr : string) : bool :=
  Nat.leb (String.length substr) (String.length s)
  && (String.eqb s substr || Nat.eqb (String.length substr) 0
      || stringsContains s substr).

End GoStrMore.

(* ------------------------------------------------------------------ *)
(** ** Story lifecycle (infra/comfyui_manager.go)                       *)
(* ------------------------------------------------------------------ *)

Module StoryOps.
Import StoryEngine.

(** [GetStoryState]: a copy of the stored state, or "story not found". *)
Definition GetStoryState (e : gmap string StoryState) (storyID : string)
    : StoryError + StoryState :=
  match e !! storyID with
  | None => inl (StoryNotFound storyID)
  | Some st => inr st
  end.

(** [EndStory]: the final-state memory write ignores its error, then the
    story is removed. *)
Definition EndStory (e : gmap string StoryState) (storyID : string)
    : gmap string StoryState * (StoryError + unit) :=
  match GetStoryState e storyID with
  | inl err => (e, inl err)
  | inr _ => (delete storyID e, inr tt)
  end.

(** [ApplyOption]: the decision memory write ignores its error, then the
    next segment is generated. *)
Definition ApplyOption (e : gmap string StoryState) (storyID : string)
    (llm : ChatOutcome) : gmap string StoryState * (StoryError + StoryResponse) :=
  GenerateStorySegment e storyID llm.

End StoryOps.

(* ------------------------------------------------------------------ *)
(** ** Prompt templates (package prompts, in infra/comfyui_manager.go)  *)
(* ------------------------------------------------------------------ *)

Module Templates.

(** RE2's [\w]: [0-9A-Za-z_]. *)
Definition is_word (c : ascii) : bool :=
  let n := nat_of_ascii c in
  (Nat.leb 48 n && Nat.leb n 57) || (Nat.leb 65 n && Nat.leb n 90)
  || (Nat.leb 97 n && Nat.leb n 122) || Nat.eqb n 95.

(** The longest prefix of word characters, and the rest. *)
Fixpoint take_word (s : string) : string * string :=
  match s with
  | EmptyString => (EmptyString, EmptyString)
  | String c r =>
      if is_word c then let '(w, r') := take_word r in (String c w, r')
      else (EmptyString, s)
  end.

Definition lbrace : ascii := "{"%char.
Definition rbrace : ascii := "}"%char.

(** A match of [\{\{(\w+)\}\}] starting at the head of [s]: the
    submatch and the text after the match. [\w+] is greedy and [}] is not
    a word character, so a match at a given start is unique. *)
Definition match_at (s : string) : option (string * string) :=
  match s with
  | String a (String b r) =>
      if Ascii.eqb a lbrace && Ascii.eqb b lbrace then
        let '(w, r') := take_word r in
        match w, r' with
        | EmptyString, _ => None
        | _, String c (String d r'') =>
            if Ascii.eqb c rbrace && Ascii.eqb d rbrace then Some (w, r'')
            else None
        | _, _ => None
        end
      else None
  | _ => None
  end.

(** The text of a template cut at the leftmost-first matches of the
    regular expression, in order. *)
Inductive Token := TChar (c : ascii) | TVar (name : string).

Fixpoint tokenize (fuel : nat) (s : string) : list Token :=
  match fuel with
  | O => map TChar (list_ascii_of_string s)
  | S fuel' =>
      match s with
      | EmptyString => []
      | String c r =>
          match match_at s with
          | Some (w, rest) => TVar w :: tokenize fuel' rest
          | None => TChar c :: tokenize fuel' r
          end
      end
  end.

Definition matches (s : string) : list Token := tokenize (S (String.length s)) s.

Definition placeholder (name : string) : string :=
  String.append "{{" (String.append name "}}").

(** The text a token stands for in the template. *)
Definition literal (t : Token) : string :=
  match t with
  | TChar c => String c EmptyString
  | TVar name => placeholder name
  end.

Record Template := mkTemplate {
  Name : string;
  Content : string;
  Variables : list string;
  TDescription : string
}.

(** [TemplateContext]; [Custom] is [nil] ([None]) or a map. *)
Record TemplateContext := mkTemplateContext {
  CurrentScene : string;
  PlayerAction : string;
  PreviousText : string;
  StorySummary : string;
  Protagonist : string;
  NPCs : string;
  RelatedMemories : string;
  RelatedDecisions : string;
  Genre : string;
  Tone : string;
  Style : string;
  Custom : option (gmap string string)
}.

Definition field (v : string) : string * bool := (v, negb (String.eqb v "")).

(** [getVariableValue] *)
Definition getVariableValue (ctx : TemplateContext) (varName : string)
    : string * bool :=
  if String.eqb varName "current_scene" then field (CurrentScene ctx)
  else if String.eqb varName "player_action" then field (PlayerAction ctx)
  else if String.eqb varName "previous_text" then field (PreviousText ctx)
  else if String.eqb varName "story_summary" then field (StorySummary ctx)
  else if String.eqb varName "protagonist" then field (Protagonist ctx)
  else if String.eqb varName "npcs" then field (NPCs ctx)
  else if String.eqb varName "related_memories" then field (RelatedMemories ctx)
  else if String.eqb varName "related_decisions" then field (RelatedDecisions ctx)
  else if String.eqb varName "genre" then field (Genre ctx)
  else if String.eqb varName "tone" then field (Tone ctx)
  else if String.eqb varName "style" then field (Style ctx)
  else match Custom ctx with
       | Some m => match m !! varName with
                   | Some v => (v, true)
                   | None => ("", false)
                   end
       | None => ("", false)
       end.

(** [strings.ReplaceAll(s, old, new)] for a non-empty [old]: the
    non-overlapping occurrences, left to right. *)
Fixpoint replace_all (fuel : nat) (s old new : string) : string :=
  match fuel with
  | O => s
  | S fuel' =>
      match s with
      | EmptyString => EmptyString
      | String c r =>
          if String.prefix old s
          then String.append new
                 (replace_all fuel' (substring (String.length old)
                                       (String.length s - String.length old) s) old new)
          else String c (replace_all fuel' r old new)
      end
  end.

Definition ReplaceAll (s old new : string) : string :=
  replace_all (S (String.length s)) s old new.

(** The replacement of one match by [ReplaceAllStringFunc]'s callback. *)
Definition render_token (ctx : TemplateContext) (t : Token) : string :=
  match t with
  | TChar c => String c EmptyString
  | TVar name =>
      let '(value, ok) := getVariableValue ctx name in
      if ok then value else placeholder name
  end.

Section WithCustomOrder.
(** Go's iteration order over [ctx.Custom]. *)
Variable custom_order : gmap string string -> list (string * string).

(** [renderTemplate] *)
Definition renderTemplate (tmpl : Template) (ctx : TemplateContext) : string :=
  let result := String.concat "" (map (render_token ctx) (matches (Content tmpl))) in
  match Custom ctx with
  | Some m =>
      fold_left (fun r kv => ReplaceAll r (placeholder kv.1) kv.2) (custom_order m) result
  | None => result
  end.

(** [GetTemplate] and [Render]. *)
Inductive TemplateError := TemplateNotFound (name : string).

Definition GetTemplate (templates : gmap string Template) (name : string)
    : TemplateError + Template :=
  match templates !! name with
  | Some t => inr t
  | None => inl (TemplateNotFound name)
  end.

Definition Render (templates : gmap string Template) (name : string)
    (ctx : TemplateContext) : TemplateError + string :=
  match GetTemplate templates name with
  | inl err => inl err
  | inr t => inr (renderTemplate t ctx)
  end.

End WithCustomOrder.

(** [BuildStoryContext] from the story's fields, the danmaku content and
    the memory texts, joined with ["\n"]; [Custom] is left nil. *)
Definition BuildStoryContext (scene prev summary protagonist npcs genre tone style
    action : string) (memories decisions : list string) : TemplateContext :=
  let nl := String (ascii_of_nat 10) EmptyString in
  mkTemplateContext scene action prev summary protagonist npcs
    (String.concat nl memories) (String.concat nl decisions)
    genre tone style None.

Section WithKeyOrder.
(** Go's iteration order over the [uniqueVars] set. *)
Variable key_order : gset string -> list string.

(** [ParseTemplateVariables] *)
Definition ParseTemplateVariables (templateContent : string) : list string :=
  let uniqueVars :=
    fold_left (fun acc t => match t with TVar v => {[v]} ∪ acc | TChar _ => acc end)
      (matches templateContent) (∅ : gset string) in
  key_order uniqueVars.

End WithKeyOrder.

End Templates.

(* ------------------------------------------------------------------ *)
(** ** Image cache maintenance (generators/image_cache.go)              *)
(* ------------------------------------------------------------------ *)

Module CacheOps.
Import ImageCache.

(** [Check]: present and, with [ttl > 0], not older than [ttl]. *)
Definition Check (c : ImageCache) (now : Z) (key : string) : bool :=
  match entries c !! key with
  | None => false
  | Some entry => negb (expired c now entry)
  end.

(** One iteration of the loop of [CleanExpired]: [now.Sub(CreatedAt) >
    c.ttl] (there is no [ttl > 0] test here, only the [ttl == 0] exit). *)
Definition clean_step (now : Z) (st : ImageCache * FS * Z)
    (kv : string * CacheEntry) : ImageCache * FS * Z :=
  let '(c, fs, count) := st in
  let '(key, entry) := kv in
  if Z.ltb (ttl c) (now - CreatedAt entry) then
    let fs' := if String.eqb (FilePath entry) "" then fs
               else remove_files fs (FilePath entry) in
    (set_stats (set_entries c (delete key (entries c)))
       (remove_entry (stats c) (FileSize entry)), fs', (count + 1)%Z)
  else (c, fs, count).

(** One iteration of the file-removal loop of [Clear]. *)
Definition clear_step (fs : FS) (kv : string * CacheEntry) : FS :=
  if String.eqb (FilePath kv.2) "" then fs else remove_files fs (FilePath kv.2).

Section WithIteration.
Variable iter_order : gmap string CacheEntry -> list (string * CacheEntry).

(** [CleanExpired]: the new cache, file system and the count removed. *)
Definition CleanExpired (c : ImageCache) (fs : FS) (now : Z) : ImageCache * FS * Z :=
  if Z.eqb (ttl c) 0 then (c, fs, 0%Z)
  else fold_left (clean_step now) (iter_order (entries c)) (c, fs, 0%Z).

(** [Clear]: removes every entry's files, then resets the map and the
    statistics. *)
Definition Clear (c : ImageCache) (fs : FS) : ImageCache * FS :=
  let fs' := fold_left clear_step (iter_order (entries c)) fs in
  (set_stats (set_entries c ∅) (mkCacheStats 0 0 0 0), fs').

End WithIteration.

End CacheOps.

(* ------------------------------------------------------------------ *)
(** ** Result cleanup of the image queue (generators/image_queue.go)    *)
(* ------------------------------------------------------------------ *)

Module QueueCleanup.

(** A stored [QueueResult]: its id, data and [Error] (nil is [None]). *)
Record QueueResult := mkQueueResult {
  ID : string;
  ImageData : list Byte.byte;
  Error : option string
}.

(** Instants are Unix nanoseconds; [time.Time{}] is 0001-01-01 UTC. *)
Definition zeroTime : Z := (-62135596800 * 1000000000)%Z.
Definition maxDuration : Z := (2 ^ 63 - 1)%Z.
Definition minDuration : Z := (- 2 ^ 63)%Z.
Definition tenMinutes : Z := (600 * 1000000000)%Z.

(** [t.Sub(u)], which saturates at the bounds of [time.Duration]. *)
Definition Sub (t u : Z) : Z := Z.max minDuration (Z.min maxDuration (t - u)).

(** The predicate of the [cleanup] loop. *)
Definition removable (now : Z) (r : QueueResult) : bool :=
  match Error r with
  | None => Z.ltb tenMinutes (Sub now zeroTime)
  | Some _ => false
  end.

(** One tick of [cleanup]: deletes every result the predicate holds for. *)
Definition cleanup (results : gmap string QueueResult) (now : Z)
    : gmap string QueueResult :=
  filter (fun kv : string * QueueResult => removable now kv.2 = false) results.

(** [GetResult] *)
Definition GetResult (results : gmap string QueueResult) (id : string)
    : option QueueResult := results !! id.

End QueueCleanup.

(* ------------------------------------------------------------------ *)
(** ** The embedding cache (rag/embedding.go)                          *)
(* ------------------------------------------------------------------ *)

Module EmbedCache.
Import Embedding.

Record CachedEmbedding := mkCachedEmbedding {
  Vector : list float;
  CreatedAt : Z
}.

(** [cacheTTL = 24 * time.Hour], instants in nanoseconds. *)
Definition cacheTTL : Z := (24 * 3600 * 1000000000)%Z.

(** [getFromCache]: an entry older than [cacheTTL] is a miss (and stays
    in the map). *)
Definition getFromCache (cache : gmap string CachedEmbedding) (now : Z)
    (text : string) : option (list float) :=
  match cache !! text with
  | None => None
  | Some ce => if Z.ltb cacheTTL (now - CreatedAt ce) then None else Some (Vector ce)
  end.

Inductive EmbedOutcome :=
  | EmbedErr                     (** the error of [embedBatchUncached] *)
  | EmbedPanic                   (** [newVectors[i]] out of range *)
  | EmbedOk (vectors : list (list float)).

(** The fill loop [for i, idx := range uncachedIndices]: each step reads
    [newVectors[i]], which panics when the API returned fewer vectors;
    the cache writes made before a panic are kept. *)
Fixpoint fill (now : Z) (us : list (nat * string)) (newVectors : list (list float))
    (out : list (option (list float))) (cache : gmap string CachedEmbedding)
    : gmap string CachedEmbedding + (list (option (list float)) * gmap string CachedEmbedding) :=
  match us with
  | [] => inr (out, cache)
  | (idx, text) :: us' =>
      match newVectors with
      | [] => inl cache
      | v :: rest =>
          fill now us' rest (<[idx := Some v]> out)
            (<[text := mkCachedEmbedding v now]> cache)
      end
  end.

Definition vec_or_nil (o : option (list float)) : list float :=
  match o with Some v => v | None => [] end.

Section WithApi.
Variable createEmbedding : list string -> option (list (list float)).
Variable batchSize : nat.

(** [EmbedBatch] at instant [now] (the cache lookups and writes of one
    call are taken at the same instant). *)
Definition EmbedBatch (cache : gmap string CachedEmbedding) (now : Z)
    (texts : list string) : gmap string CachedEmbedding * EmbedOutcome :=
  match texts with
  | [] => (cache, EmbedOk [])
  | _ =>
      let cachedVectors := map (getFromCache cache now) texts in
      let uncached := List.filter (fun p => match getFromCache cache now p.2 with
                                            | Some _ => false | None => true end)
                        (combine (seq 0 (length texts)) texts) in
      match uncached with
      | [] => (cache, EmbedOk (map vec_or_nil cachedVectors))
      | _ =>
          match embedBatchUncached createEmbedding batchSize (map snd uncached) with
          | None => (cache, EmbedErr)
          | Some newVectors =>
              match fill now uncached newVectors cachedVectors cache with
              | inl cache' => (cache', EmbedPanic)
              | inr (out, cache') => (cache', EmbedOk (map vec_or_nil out))
              end
          end
      end
  end.

End WithApi.

End EmbedCache.

(* ------------------------------------------------------------------ *)
(** ** Bilibili framing (adapters/bilibili.go: sendMessage)             *)
(* ------------------------------------------------------------------ *)

Module BiliFrame.
Import Bilibili.
Local Open Scope Z_scope.

Definition protocolVersion : Z := 1.
Definition operationHeartbeat : Z := 2.

(** [byte(x)]: the low eight bits. *)
Definition go_byte (x : Z) : Byte.byte :=
  match Byte.of_N (Z.to_N (Z.land x 255)) with
  | Some b => b
  | None => Byte.x00
  end.

(** [sendMessage(op, body)]: the buffer handed to [WriteMessage]. *)
Definition sendMessage (op : Z) (body : bytes) : bytes :=
  let totalLen := headerLength + Z.of_nat (length body) in
  let packetLength := totalLen mod 2 ^ 32 in
  let sequenceID := 1 in
  app [go_byte (Z.shiftr packetLength 24); go_byte (Z.shiftr packetLength 16);
       go_byte (Z.shiftr packetLength 8); go_byte packetLength;
       go_byte (Z.shiftr headerLength 8); go_byte headerLength;
       go_byte (Z.shiftr protocolVersion 8); go_byte protocolVersion;
       go_byte (Z.shiftr op 24); go_byte (Z.shiftr op 16);
       go_byte (Z.shiftr op 8); go_byte op;
       go_byte (Z.shiftr sequenceID 24); go_byte (Z.shiftr sequenceID 16);
       go_byte (Z.shiftr sequenceID 8); go_byte sequenceID]
    body.

End BiliFrame.

(* ================================================================== *)
(** * Theorems                                                          *)
(* ================================================================== *)

Module StoryEngineFacts.
Import GoStr StoryEngine.

Example tavern_has_markers :
  map (containsSubstring tavern_reply) ["1."; "2."; "3."] = [true; true; true].
Proof. reflexivity. Qed.

Lemma scan_patterns_keeps (text : string) (i : nat) (ps : list string)
    (opts : list StoryOption) :
  snd (scan_patterns text i ps opts) = opts.
Proof.
  revert i. induction ps as [|p ps IH]; intros i; simpl; [done|].
  destruct (negb (containsSubstring text p)); simpl; [done|].
  apply IH.
Qed.

Lemma scan_families_nil (text : string) (fams : list (list string)) :
  scan_families text fams [] = [].
Proof.
  induction fams as [|ps fams IH]; simpl; [done|].
  pose proof (scan_patterns_keeps text 0 ps []) as H.
  destruct (scan_patterns text 0 ps []) as [found opts]. simpl in H. subst.
  by destruct found.
Qed.

Lemma parseOptions_always_default (text : string) :
  parseOptionsFromResponse text = default_options.
Proof.
  unfold parseOptionsFromResponse. by rewrite scan_families_nil.
Qed.

(** Claim C1: on the tavern reply, which contains the markers "1.", "2."
    and "3.", the parser does not extract the option texts from the model
    text: it returns the three canned default options. *)
Theorem tavern_reply_options_are_canned :
  parseOptionsFromResponse tavern_reply = default_options
  /\ map Text (parseOptionsFromResponse tavern_reply)
     = ["继续前进"; "观察周围"; "询问NPC"].
Proof.
  rewrite parseOptions_always_default. split; reflexivity.
Qed.


(** Claim C3 (amended): [CreateStory] performs no existence check and has no
    AlreadyExists outcome; whatever the map held under the id, it stores a
    fresh state there. On a model reply it returns that state; when the
    generation fails it returns an error and the fresh initial state stays
    stored. *)
Theorem CreateStory_replaces_existing (e : gmap string StoryState)
    (storyID : string) (settings : gmap string SettingValue)
    (llm : ChatOutcome) :
  CreateStory e storyID settings llm =
    match llm with
    | ChatChoices (t :: _) =>
        (<[storyID := created_state settings t]> e,
         inr (created_state settings t))
    | _ => (<[storyID := initial_state settings]> e, inl GenerationFailed)
    end.
Proof.
  unfold CreateStory, GenerateStorySegment, created_state. cbv zeta.
  rewrite !lookup_insert_eq.
  destruct llm as [|[|t rest]]; [done|done|].
  simpl. by rewrite !insert_insert_eq.
Qed.


(** Claim C3 (counterexample): creating "demo_story" again, while it is
    active, succeeds and replaces its state. *)
Lemma create_existing_story_succeeds :
  let r := CreateStory {["demo_story" := old_story]} "demo_story"
             {["protagonist" := SString "Li"]} (ChatChoices [tavern_reply]) in
  (match snd r with inr _ => true | inl _ => false end) = true
  /\ option_map PreviousText (fst r !! "demo_story") = Some tavern_reply.
Proof. vm_compute. split; reflexivity. Qed.

End StoryEngineFacts.

Module ImageCacheFacts.
Import ImageCache.

(** Paths. *)
Lemma list_ascii_of_string_append (a b : string) :
  list_ascii_of_string (String.append a b)
  = app (list_ascii_of_string a) (list_ascii_of_string b).
Proof. induction a as [|ch a IH]; simpl; [done|]. by rewrite IH. Qed.

Lemma blob_path_inj (d k1 k2 : string) :
  blob_path d k1 = blob_path d k2 -> k1 = k2.
Proof.
  unfold blob_path, Join. intros H.
  apply (f_equal list_ascii_of_string) in H.
  rewrite !list_ascii_of_string_append in H.
  apply app_inv_head in H. simpl in H. injection H as H.
  apply app_inv_tail in H.
  rewrite <- (string_of_list_ascii_of_string k1),
          <- (string_of_list_ascii_of_string k2). by rewrite H.
Qed.

Lemma meta_ne_blob (p d k : string) :
  String.append p ".meta" <> blob_path d k.
Proof.
  unfold blob_path, Join. intros H.
  apply (f_equal (fun s => rev (list_ascii_of_string s))) in H.
  rewrite !list_ascii_of_string_append, !rev_app_distr in H.
  simpl in H. rewrite <- !app_assoc in H. simpl in H. discriminate.
Qed.

(** The oldest-entry search. *)
Lemma find_oldest_gen_key (l : list (string * CacheEntry)) (acc : string * Z) :
  Forall (fun kv => fst kv <> "") l ->
  fst acc <> "" \/ (snd acc = 0%Z /\ l <> []) ->
  fst (fold_left oldest_step l acc) <> "".
Proof.
  revert acc. induction l as [|kv l IH]; intros acc Hl Hacc; cbn [fold_left].
  { destruct Hacc as [H|[_ H]]; [exact H|done]. }
  inversion Hl as [|? ? Hkv Hl']; subst. apply IH; [exact Hl'|]. left.
  unfold oldest_step.
  destruct (Z.eqb_spec (snd acc) 0) as [H0|H0]; [exact Hkv|].
  destruct (Z.ltb _ _); [exact Hkv|]. destruct Hacc as [H|[H _]]; [exact H|done].
Qed.

(** Over a non-empty map with non-empty keys the search finds a key. *)
Lemma find_oldest_key_ne (l : list (string * CacheEntry)) :
  l <> [] -> Forall (fun kv => fst kv <> "") l -> fst (find_oldest l) <> "".
Proof. intros Hne Hl. apply find_oldest_gen_key; [exact Hl|]. by right. Qed.

Lemma Put_ok_inv (iter_order : gmap string CacheEntry -> list (string * CacheEntry))
    (writable : string -> bool) (marshal : CacheMeta -> option OptFloats -> bytes)
    (c : ImageCache) (fs : FS) (now : Z) (key : string) (data : bytes)
    (prompt : string) (opts : option OptFloats) (c' : ImageCache) (fs' : FS) :
  Put iter_order writable marshal c fs now key data prompt opts = Some (c', fs', inr tt) ->
  let c1 := set_stats (set_entries c (<[key := put_entry (directory c) key now data prompt]>
                                       (entries c)))
              (add_entry (stats c) (Z.of_nat (length data))) in
  let fs2 := <[String.append (blob_path (directory c) key) ".meta" :=
                 marshal (meta_of (put_entry (directory c) key now data prompt)) opts]>
             (<[blob_path (directory c) key := data]> fs) in
  c' = c1 /\ fs' = fs2
  /\ (Z.ltb (maxEntries c1) (Z.of_nat (size (entries c1))) = true ->
      fst (find_oldest (iter_order (entries c1))) = "").
Proof.
  unfold Put. destruct (writable (blob_path (directory c) key)); simpl;
    [|discriminate].
  destruct (options_marshalable opts); simpl; [|discriminate].
  destruct (writable (String.append (blob_path (directory c) key) ".meta"));
    simpl; [|discriminate].
  destruct (Z.ltb _ _).
  - unfold evictOldest. simpl.
    destruct (String.eqb_spec (fst (find_oldest (iter_order
               (<[key:=put_entry (directory c) key now data prompt]> (entries c))))) "")
      as [He|He]; [|discriminate].
    intros H. injection H as <- <-. by repeat split.
  - intros H. injection H as <- <-. by repeat split.
Qed.

(** Claim C7 (code bug): with [maxEntries = N] and N entries, putting a
    new key makes the map exceed N, and [Put], which holds [c.mu], calls
    [evictOldest]; it finds a key to evict and calls [Invalidate], whose
    [c.mu.Lock()] blocks on the lock [Put] holds. The put never returns,
    for any iteration order of the Go map, when keys are non-empty (the
    MD5 hex keys of [GenerateCacheKey]) and the writes and the JSON
    encoding succeed. *)
Theorem put_overflow_deadlocks
    (iter_order : gmap string CacheEntry -> list (string * CacheEntry))
    (writable : string -> bool) (marshal : CacheMeta -> option OptFloats -> bytes)
    (c : ImageCache) (fs : FS) (now : Z) (key : string) (data : bytes)
    (prompt : string) (opts : option OptFloats) :
  (forall m, iter_order m ≡ₚ map_to_list m) ->
  Z.of_nat (size (entries c)) = maxEntries c ->
  entries c !! key = None ->
  (forall k e, entries c !! k = Some e -> k <> "") ->
  key <> "" ->
  writable (blob_path (directory c) key) = true ->
  writable (String.append (blob_path (directory c) key) ".meta") = true ->
  options_marshalable opts = true ->
  Put iter_order writable marshal c fs now key data prompt opts = None.
Proof.
  intros Hperm Hsize Hfresh Hkeys Hkey Hw Hwm Hopts.
  unfold Put. rewrite Hw, Hopts, Hwm. cbn [negb].
  set (m1 := <[key := put_entry (directory c) key now data prompt]> (entries c)).
  cbn [entries set_stats set_entries maxEntries].
  assert (Hsz : size m1 = S (size (entries c))).
  { by apply map_size_insert_None. }
  rewrite Hsz.
  replace (Z.ltb (maxEntries c) (Z.of_nat (S (size (entries c))))) with true
    by (symmetry; apply Z.ltb_lt; lia).
  unfold evictOldest. cbn [entries].
  assert (Hin : forall kv, In kv (iter_order m1) <-> m1 !! kv.1 = Some kv.2).
  { intros [k e]. rewrite <- list_elem_of_In, (Hperm m1).
    apply elem_of_map_to_list. }
  assert (Hv : fst (find_oldest (iter_order m1)) <> "").
  { apply find_oldest_key_ne.
    - intros Hnil. specialize (Hin (key, put_entry (directory c) key now data prompt)).
      rewrite Hnil in Hin. simpl in Hin. apply Hin. unfold m1.
      by rewrite lookup_insert_eq.
    - apply List.Forall_forall. intros [k e] Hke. apply Hin in Hke. simpl in *.
      unfold m1 in Hke. destruct (decide (k = key)) as [->|Hne]; [done|].
      rewrite lookup_insert_ne in Hke by congruence. by apply Hkeys in Hke. }
  apply String.eqb_neq in Hv.
  change (entries (set_stats (set_entries c m1) (add_entry (stats c) (Z.of_nat (length data)))))
    with m1.
  by rewrite Hv.
Qed.

Lemma meta_ne_self (p : string) : String.append p ".meta" <> p.
Proof.
  intros H. apply (f_equal String.length) in H.
  induction p as [|ch p IH]; simpl in *; [discriminate|]. injection H. done.
Qed.

Lemma Get_put_entry (c : ImageCache) (fs : FS) (now now' : Z) (key : string)
    (data : bytes) (prompt : string) (dir : string) :
  entries c !! key = Some (put_entry dir key now data prompt) ->
  fs !! blob_path dir key = Some data ->
  (ttl c <= 0 \/ now' - now <= ttl c)%Z ->
  snd (Get c fs now' key) = inr data.
Proof.
  intros He Hf Httl. unfold Get. rewrite He.
  assert (Hx : expired c now' (put_entry dir key now data prompt) = false).
  { unfold expired. simpl.
    destruct (Z.ltb_spec 0 (ttl c)); simpl; [|done].
    apply Z.ltb_ge. lia. }
  rewrite Hx. simpl.
  destruct (Nat.ltb 0 (length data)); simpl; [by rewrite Hf|done].
Qed.

(** Claim C4: a successful [Put] of [data] under [key] is read back by a
    following [Get] as exactly [data], as long as the key is still in the
    map and the TTL has not run out (the cache's blob paths being the ones
    [Put] writes); and a second [Put] of a key already present replaces
    its entry without growing the map. A [Put] that would evict never
    returns (claim C7), so a successful one evicted nothing. *)
Theorem put_get_roundtrip_and_replace
    (iter_order : gmap string CacheEntry -> list (string * CacheEntry))
    (writable : string -> bool) (marshal : CacheMeta -> option OptFloats -> bytes) :
  (forall (c : ImageCache) (fs : FS) (now now' : Z) (key : string)
          (data : bytes) (prompt : string) (opts : option OptFloats)
          (c' : ImageCache) (fs' : FS),
     (forall k e, entries c !! k = Some e -> FilePath e = blob_path (directory c) k) ->
     Put iter_order writable marshal c fs now key data prompt opts = Some (c', fs', inr tt) ->
     entries c' !! key <> None ->
     (ttl c <= 0 \/ now' - now <= ttl c)%Z ->
     snd (Get c' fs' now' key) = inr data)
  /\
  (forall (c : ImageCache) (fs : FS) (now : Z) (key : string)
          (data : bytes) (prompt : string) (opts : option OptFloats)
          (c' : ImageCache) (fs' : FS) (old : CacheEntry),
     entries c !! key = Some old ->
     Put iter_order writable marshal c fs now key data prompt opts = Some (c', fs', inr tt) ->
     size (entries c') <= size (entries c)
     /\ ((Z.of_nat (size (entries c)) <= maxEntries c)%Z ->
         entries c' = <[key := put_entry (directory c) key now data prompt]>
                        (entries c))).
Proof.
  split.
  - intros c fs now now' key data prompt opts c' fs' _ HPut _ Httl.
    apply Put_ok_inv in HPut. destruct HPut as (-> & -> & _).
    eapply Get_put_entry; cbn [entries set_stats set_entries ttl].
    + by rewrite lookup_insert_eq.
    + rewrite lookup_insert_ne by apply meta_ne_self. by rewrite lookup_insert_eq.
    + exact Httl.
  - intros c fs now key data prompt opts c' fs' old Hold HPut.
    apply Put_ok_inv in HPut. destruct HPut as (-> & _ & _).
    cbn [entries set_stats set_entries].
    rewrite map_size_insert, Hold. split; [unfold id; lia|done].
Qed.

Lemma init_step_restored (unmarshal : bytes -> option CacheMeta) (now : Z)
    (c0 c : ImageCache) (fs : FS) (d : DirEntry) :
  (forall k e, entries c !! k = Some e -> entries c0 !! k = Some e \/ ImageData e = []) ->
  forall k e, entries (fst (init_step unmarshal now (c, fs) d)) !! k = Some e ->
  entries c0 !! k = Some e \/ ImageData e = [].
Proof.
  intros Hc k e. unfold init_step.
  destruct (DIsDir d); [apply Hc|].
  destruct (fs !! _) as [md|]; [|apply Hc].
  destruct (unmarshal md) as [m|]; [|apply Hc].
  destruct (_ && _); [apply Hc|]. simpl.
  set (e1 := match fs !! Join (directory c) (DName d) with
             | Some blob => set_file_size (entry_of_meta m) (Z.of_nat (length blob))
             | None => entry_of_meta m end).
  assert (He1 : ImageData e1 = []) by (unfold e1; by destruct (fs !! _)).
  destruct (decide (k = Key e1)) as [->|Hne].
  - rewrite lookup_insert_eq. intros [= <-]. by right.
  - rewrite lookup_insert_ne by congruence. apply Hc.
Qed.

Lemma Initialize_restored (unmarshal : bytes -> option CacheMeta) (now : Z)
    (listing : list DirEntry) :
  forall (c0 c : ImageCache) (fs : FS),
  (forall k e, entries c !! k = Some e -> entries c0 !! k = Some e \/ ImageData e = []) ->
  forall k e, entries (fst (Initialize unmarshal c fs now listing)) !! k = Some e ->
  entries c0 !! k = Some e \/ ImageData e = [].
Proof.
  unfold Initialize.
  induction listing as [|d listing IH]; intros c0 c fs Hc; cbn [fold_left];
    [done|].
  destruct (init_step unmarshal now (c, fs) d) as [c1 fs1] eqn:Hs.
  apply IH. intros k e. pose proof (init_step_restored unmarshal now c0 c fs d Hc k e) as H.
  rewrite Hs in H. exact H.
Qed.

(** Claim C10: every entry that [Initialize] loads into a fresh cache
    has no in-memory data, so a [Get] on its key that finds it unexpired
    returns empty content with no error, whatever the file system holds
    (the blob is never read), and counts a hit. *)
Theorem restored_entry_get_is_empty
    (unmarshal : bytes -> option CacheMeta) (dir : string) (maxE t : Z)
    (fs : FS) (now : Z) (listing : list DirEntry) (k : string) (e : CacheEntry)
    (fs' : FS) (now' : Z) :
  let c1 := fst (Initialize unmarshal (NewImageCache dir maxE t) fs now listing) in
  entries c1 !! k = Some e ->
  expired c1 now' e = false ->
  exists c2, Get c1 fs' now' k = (c2, fs', inr [])
             /\ SHits (stats c2) = (SHits (stats c1) + 1)%Z
             /\ SMisses (stats c2) = SMisses (stats c1).
Proof.
  intros c1 Hk Hx.
  destruct (Initialize_restored unmarshal now listing (NewImageCache dir maxE t)
              (NewImageCache dir maxE t) fs ltac:(by left) k e Hk) as [H|Hd].
  { simpl in H. by rewrite lookup_empty in H. }
  unfold Get. rewrite Hk, Hx, Hd. simpl.
  eexists. split; [reflexivity|]. simpl. done.
Qed.

Lemma cache2_paths :
  forall k e, entries cache2 !! k = Some e -> FilePath e = blob_path (directory cache2) k.
Proof.
  assert (H : map_Forall (fun k e => FilePath e = blob_path (directory cache2) k)
                (entries cache2)) by (apply (bool_decide_unpack _); vm_compute; reflexivity).
  exact H.
Qed.

Lemma put_get_roundtrip_and_replace_witness :
  Put map_to_list (fun _ => true) (fun _ _ => []) cache2 ∅ 10 "a" [Byte.x07] "p" None
    = Some (set_stats (set_entries cache2
              (<["a" := put_entry "data" "a" 10 [Byte.x07] "p"]> (entries cache2)))
              (add_entry (stats cache2) 1),
            <["data/a.png.meta" := []]> {["data/a.png" := [Byte.x07]]}, inr tt)
  /\ snd (Get (set_stats (set_entries cache2
              (<["a" := put_entry "data" "a" 10 [Byte.x07] "p"]> (entries cache2)))
              (add_entry (stats cache2) 1))
             (<["data/a.png.meta" := []]> {["data/a.png" := [Byte.x07]]}) 11 "a")
      = inr [Byte.x07].
Proof.
  assert (E : Put map_to_list (fun _ => true) (fun _ _ => []) cache2 ∅ 10 "a" [Byte.x07] "p" None
    = Some (set_stats (set_entries cache2
              (<["a" := put_entry "data" "a" 10 [Byte.x07] "p"]> (entries cache2)))
              (add_entry (stats cache2) 1),
            <["data/a.png.meta" := []]> {["data/a.png" := [Byte.x07]]}, inr tt))
    by (vm_compute; reflexivity).
  split; [exact E|].
  apply (proj1 (put_get_roundtrip_and_replace map_to_list (fun _ => true)
                  (fun _ _ => [])) cache2 ∅ 10%Z 11%Z "a" [Byte.x07] "p" None _ _).
  - exact cache2_paths.
  - exact E.
  - vm_compute. congruence.
  - left. vm_compute. congruence.
Defined.

Lemma cache2_keys :
  forall k e, entries cache2 !! k = Some e -> k <> "".
Proof.
  assert (H : map_Forall (fun k e => k <> "") (entries cache2))
    by (apply (bool_decide_unpack _); vm_compute; reflexivity).
  exact H.
Qed.

Lemma put_overflow_deadlocks_witness :
  Put map_to_list (fun _ => true) (fun _ _ => []) cache2 ∅ 10 "c" [Byte.x07] "p" None = None.
Proof.
  apply (put_overflow_deadlocks map_to_list (fun _ => true) (fun _ _ => [])
           cache2 ∅ 10%Z "c" [Byte.x07] "p" None).
  - intros m. reflexivity.
  - vm_compute. reflexivity.
  - vm_compute. reflexivity.
  - exact cache2_keys.
  - vm_compute. congruence.
  - reflexivity.
  - reflexivity.
  - reflexivity.
Defined.

Lemma restored_entry_get_is_empty_witness :
  let c1 := fst (Initialize (fun _ => Some restored_meta)
                   (NewImageCache "data" 10 0)
                   {["data/a.png.meta" := [Byte.x01]]} 6
                   [mkDirEntry "a.png" false; mkDirEntry "a.png.meta" false]) in
  entries c1 !! "a" = Some (entry_of_meta restored_meta)
  /\ expired c1 100 (entry_of_meta restored_meta) = false
  /\ exists c2, Get c1 {["data/a.png" := [Byte.x09]]} 100 "a"
                = (c2, {["data/a.png" := [Byte.x09]]}, inr [])
             /\ SHits (stats c2) = (SHits (stats c1) + 1)%Z
             /\ SMisses (stats c2) = SMisses (stats c1).
Proof.
  split; [vm_compute; reflexivity|]. split; [vm_compute; reflexivity|].
  apply (restored_entry_get_is_empty (fun _ => Some restored_meta) "data" 10 0
           {["data/a.png.meta" := [Byte.x01]]} 6
           [mkDirEntry "a.png" false; mkDirEntry "a.png.meta" false] "a"
           (entry_of_meta restored_meta)); vm_compute; reflexivity.
Defined.

End ImageCacheFacts.

Module ImageQueueFacts.
Import ImageQueue.








End ImageQueueFacts.

Module EmbeddingFacts.
Import Embedding.
Local Open Scope float_scope.
(** Go rounds the decimal literals below to the nearest float64, as Rocq does. *)
Local Set Warnings "-inexact-float".

(** Every component of the vector is [+0] or [-0]. *)
Local Abbreviation all_zero vector :=
  (Forall (fun x : float => x = 0 \/ x = (-0)) vector).





End EmbeddingFacts.

Module EmbeddingWitness.
Import Embedding EmbeddingFacts.
Local Open Scope float_scope.


End EmbeddingWitness.

Module BilibiliFacts.
Import Bilibili.

Example dedup_scenario :
  snd (run_filter newDedupState [("hi", 0%Z); ("hi", 30%Z); ("hi", 61%Z)])
  = [("hi", 0%Z); ("hi", 61%Z)].
Proof. vm_compute. reflexivity. Qed.

(** Claim C6: the header checks hold (fewer than 16 remaining bytes, or a
    packet length under 16, end the loop), but the body slice is not
    checked against the buffer: a MESSAGE header whose packet length runs
    past the received bytes makes [data[offset+16 : offset+packetLen]]
    exceed the slice's capacity, a runtime panic. *)
Theorem truncated_message_panics (danmu_info0_singleton : bytes -> bool) (spare : bytes) :
  (Z.of_nat (length spare) < 4294967279)%Z ->
  handleMessage danmu_info0_singleton truncated_frame spare = Panicked.
Proof.
  intros Hs.
  assert (Hgo : go_slice (app truncated_frame spare) 16 4294967295 = None).
  { unfold go_slice. rewrite length_app.
    replace (Z.of_nat (length truncated_frame + length spare))
      with (16 + Z.of_nat (length spare))%Z by (simpl length; lia).
    destruct (4294967295 <=? 16 + Z.of_nat (length spare))%Z eqn:E.
    - apply Z.leb_le in E. lia.
    - by rewrite andb_false_r. }
  unfold handleMessage. remember (app truncated_frame spare) as bk eqn:Hbk.
  assert (Hb : forall i, (i < 16)%nat -> nth i bk Byte.x00 = nth i truncated_frame Byte.x00).
  { intros i Hi. subst bk. rewrite app_nth1; [done|simpl; lia]. }
  unfold handle_loop. unfold be32, byte_at. simpl Z.to_nat.
  rewrite !Hb by lia. simpl.
  replace (0 + headerLength)%Z with 16%Z by reflexivity.
  replace (0 + (255 * 16777216 + 255 * 65536 + 255 * 256 + 255))%Z
    with 4294967295%Z by reflexivity.
  by rewrite Hgo.
Qed.

Lemma truncated_message_panics_witness :
  (Z.of_nat (length ([] : bytes)) < 4294967279)%Z
  /\ handleMessage (fun _ => false) truncated_frame [] = Panicked.
Proof. split; [simpl; lia|]. apply truncated_message_panics. simpl. lia. Defined.

(** The window and the keyword list never change along the stream. *)
Lemma filter_step_fields st item :
  dedupWindow (fst (filter_step st item)) = dedupWindow st /\
  filterKeywords (fst (filter_step st item)) = filterKeywords st.
Proof.
  destruct item as [text now]. unfold filter_step, shouldSendDanmaku.
  destruct (String.eqb text ""); [done|].
  destruct (now - lastDedupTime st >? 300)%Z;
    repeat (case_match; simplify_eq/=); done.
Qed.

Lemma run_filter_fields st items :
  dedupWindow (fst (run_filter st items)) = dedupWindow st /\
  filterKeywords (fst (run_filter st items)) = filterKeywords st.
Proof.
  revert st. induction items as [|it rest IH]; intros st; [done|].
  simpl. destruct (filter_step st it) as [st1 ok] eqn:E.
  destruct (run_filter st1 rest) as [st2 pub] eqn:E2. simpl.
  pose proof (filter_step_fields st it) as [H1 H2]. rewrite E in H1, H2.
  specialize (IH st1). rewrite E2 in IH. simpl in *. destruct IH. split; congruence.
Qed.

Lemma run_filter_sub st items p :
  In p (snd (run_filter st items)) -> In p items.
Proof.
  revert st. induction items as [|it rest IH]; intros st; [done|].
  simpl. destruct (filter_step st it) as [st1 ok].
  specialize (IH st1). destruct (run_filter st1 rest) as [st2 pub]. simpl in *.
  destruct ok; simpl; [intros [<-|H]; [by left|right; by apply IH]|].
  intros H; right; by apply IH.
Qed.

Lemma run_filter_cons st it rest :
  snd (run_filter st (it :: rest))
  = let r := snd (run_filter (fst (filter_step st it)) rest) in
    if snd (filter_step st it) then it :: r else r.
Proof.
  cbn [run_filter]. destruct (filter_step st it) as [st1 ok].
  cbn [fst snd]. by destruct (run_filter st1 rest).
Qed.

Lemma count_text_absent x l :
  (forall t, ~ In (x, t) l) -> count_text x l = 0%nat.
Proof.
  intros H. unfold count_text. induction l as [|[y t] l IH]; [done|].
  simpl. destruct (String.eqb_spec y x) as [->|]; simpl.
  - exfalso. apply (H t). by left.
  - apply IH. intros t' Ht'. apply (H t'). by right.
Qed.

Lemma filter_step_other st y now x :
  y <> x -> y <> "" ->
  recentDanmaku (fst (filter_step st (y, now))) !! x
  = table_after_cleanup st now !! x.
Proof.
  intros Hy Hne. unfold filter_step, shouldSendDanmaku, table_after_cleanup.
  destruct (String.eqb_spec y "") as [|_]; [done|].
  destruct (now - lastDedupTime st >? 300)%Z; simpl;
    repeat case_match; simplify_eq/=; try done;
    unfold recordDanmaku; simpl; by rewrite lookup_insert_ne.
Qed.

Lemma filter_step_empty st now :
  filter_step st ("", now) = (st, false).
Proof. reflexivity. Qed.

Lemma cleanup_keeps st now x t1 :
  recentDanmaku st !! x = Some t1 -> (now - t1 < dedupWindow st)%Z ->
  table_after_cleanup st now !! x = Some t1.
Proof.
  intros H Hw. unfold table_after_cleanup.
  destruct (now - lastDedupTime st >? 300)%Z; [|done].
  unfold cleanupOldDanmaku. apply map_lookup_filter_Some. split; [done|simpl; lia].
Qed.

Lemma cleanup_absent st now x :
  recentDanmaku st !! x = None -> table_after_cleanup st now !! x = None.
Proof.
  intros H. unfold table_after_cleanup.
  destruct (now - lastDedupTime st >? 300)%Z; [|done].
  unfold cleanupOldDanmaku. apply map_lookup_filter_None. by left.
Qed.

(** Once [x] is recorded at [t1], every later occurrence inside the
    window is suppressed. *)
Lemma after_first_suppressed x t1 : forall items st,
  clock_monotone items ->
  (recentDanmaku st !! x = Some t1 /\
     forall t, In (x, t) items -> (t - t1 < dedupWindow st)%Z)
  \/ (forall t, ~ In (x, t) items) ->
  count_text x (snd (run_filter st items)) = 0%nat.
Proof.
  induction items as [|[y now] rest IH]; intros st Hsort Hinv; [done|].
  inversion Hsort as [|? ? Hsort' Hall]; subst.
  destruct Hinv as [[Hx Hw]|Hno].
  2:{ apply count_text_absent. intros t Ht. apply (Hno t).
      by apply (run_filter_sub st). }
  rewrite run_filter_cons. destruct (filter_step st (y, now)) as [st1 ok] eqn:E.
  simpl. pose proof (filter_step_fields st (y, now)) as [Hf1 _]. rewrite E in Hf1.
  simpl in Hf1.
  destruct (String.eqb_spec y x) as [->|Hyx].
  - (* a duplicate of [x]: suppressed, and the entry kept *)
    assert (Hnow : (now - t1 < dedupWindow st)%Z) by (apply Hw; by left).
    destruct (String.eqb_spec x "") as [->|Hxe].
    + rewrite filter_step_empty in E. simplify_eq.
      apply IH; [done|]. left. split; [done|]. intros t Ht. apply Hw. by right.
    + pose proof (cleanup_keeps st now x t1 Hx Hnow) as Hk.
      unfold filter_step, shouldSendDanmaku in E.
      destruct (String.eqb_spec x "") as [|_]; [done|].
      unfold table_after_cleanup in Hk.
      destruct (now - lastDedupTime st >? 300)%Z; simpl in E;
        rewrite Hk in E; simpl in E;
        (replace (now - t1 <? dedupWindow st)%Z with true in E
           by (symmetry; apply Z.ltb_lt; lia));
        simplify_eq/=;
        (apply IH; [done|]; left; split; [done|];
         intros t Ht; apply Hw; by right).
  - assert (Hnx : count_text x (snd (run_filter st1 rest)) = 0%nat).
    { apply IH; [done|].
      destruct (existsb (fun p => String.eqb (fst p) x) rest) eqn:Ex.
      + apply existsb_exists in Ex as [[z t] [Hin Hz]].
        apply String.eqb_eq in Hz. simpl in Hz. subst z.
        left. rewrite Hf1. split.
        * destruct (String.eqb_spec y "") as [->|Hye].
          { rewrite filter_step_empty in E. by simplify_eq. }
          replace st1 with (fst (filter_step st (y, now))) by (by rewrite E).
          rewrite filter_step_other by done. apply cleanup_keeps; [done|].
          rewrite List.Forall_forall in Hall. specialize (Hall _ Hin).
          simpl in Hall. specialize (Hw t (or_intror Hin)). lia.
        * intros t' Ht'. apply Hw. by right.
      + right. intros t Ht.
        assert (existsb (fun p => String.eqb (fst p) x) rest = true) as C.
        { apply existsb_exists. exists (x, t). split; [done|]. apply String.eqb_refl. }
        congruence. }
    destruct ok; [|done]. unfold count_text in *. simpl.
    destruct (String.eqb_spec y x); [done|]. exact Hnx.
Qed.

Lemma before_first_published x : forall items st,
  x <> "" ->
  recentDanmaku st !! x = None ->
  existsb (contains x) (filterKeywords st) = false ->
  clock_monotone items ->
  Forall (fun t => Forall (fun t' => (t' - t < dedupWindow st)%Z)
                     (occurrences x items)) (occurrences x items) ->
  occurrences x items <> [] ->
  count_text x (snd (run_filter st items)) = 1%nat.
Proof.
  induction items as [|[y now] rest IH]; intros st Hxe Hx Hkw Hsort Hwin Hocc;
    [done|].
  inversion Hsort as [|? ? Hsort' Hall]; subst.
  rewrite run_filter_cons. destruct (filter_step st (y, now)) as [st1 ok] eqn:E.
  simpl. pose proof (filter_step_fields st (y, now)) as [Hf1 Hf2]. rewrite E in Hf1, Hf2.
  simpl in Hf1, Hf2.
  unfold occurrences in Hwin, Hocc. simpl in Hwin, Hocc.
  destruct (String.eqb_spec y x) as [->|Hyx].
  - (* the first occurrence: published and recorded *)
    pose proof (cleanup_absent st now x Hx) as Hk.
    unfold filter_step, shouldSendDanmaku in E.
    destruct (String.eqb_spec x "") as [|_]; [done|].
    assert (Hrest : count_text x (snd (run_filter
              (recordDanmaku (if (now - lastDedupTime st >? 300)%Z
                 then mkDedupState (cleanupOldDanmaku st now) (dedupWindow st)
                        (filterKeywords st) now else st) now x) rest)) = 0%nat).
    { assert (Hwx : forall t, In (x, t) rest -> (t - now < dedupWindow st)%Z).
      { intros t Ht. simpl in Hwin.
        inversion Hwin as [|? ? Hnow _]; subst.
        inversion Hnow as [|? ? _ Hnow']; subst.
        rewrite List.Forall_forall in Hnow'. apply Hnow'.
        apply in_map_iff. exists (x, t). split; [done|].
        apply filter_In. split; [done|]. apply String.eqb_refl. }
      destruct (now - lastDedupTime st >? 300)%Z;
        (apply (after_first_suppressed x now); [done|]; left; split;
         [unfold recordDanmaku; simpl; by rewrite lookup_insert_eq
         |intros t Ht; simpl; by apply Hwx]). }
    unfold table_after_cleanup in Hk.
    destruct (now - lastDedupTime st >? 300)%Z; simpl in E; rewrite Hk in E;
      simpl in E; rewrite Hkw in E; simplify_eq/=;
      unfold count_text in *; simpl; rewrite String.eqb_refl; simpl;
      by rewrite Hrest.
  - assert (Hne : occurrences x rest <> []) by (unfold occurrences; done).
    assert (Hx1 : recentDanmaku st1 !! x = None).
    { destruct (String.eqb_spec y "") as [->|Hye].
      - rewrite filter_step_empty in E. by simplify_eq.
      - replace st1 with (fst (filter_step st (y, now))) by (by rewrite E).
        rewrite filter_step_other by done. by apply cleanup_absent. }
    assert (Hc : count_text x (snd (run_filter st1 rest)) = 1%nat).
    { apply IH; try done; [by rewrite Hf2|]. by rewrite Hf1. }
    destruct ok; [|done]. unfold count_text in *. simpl.
    destruct (String.eqb_spec y x); [done|]. exact Hc.
Qed.

(** Claim C8: along a stream of extracted texts with their (non-decreasing)
    seconds, a text [x] that is not empty, matches no filter keyword and
    is not in the table at the start, and whose occurrences all lie
    within the dedup window of each other, is published exactly once;
    the 0/30/61 scenario of the spec is [dedup_scenario]. *)
Theorem duplicates_in_window_published_once (st : DedupState)
    (items : list (string * Z)) (x : string) :
  x <> "" ->
  recentDanmaku st !! x = None ->
  existsb (contains x) (filterKeywords st) = false ->
  clock_monotone items ->
  Forall (fun t => Forall (fun t' => (t' - t < dedupWindow st)%Z)
                     (occurrences x items)) (occurrences x items) ->
  occurrences x items <> [] ->
  count_text x (snd (run_filter st items)) = 1%nat.
Proof. apply before_first_published. Qed.

Lemma duplicates_in_window_published_once_witness :
  count_text "hi" (snd (run_filter newDedupState
    [("hi", 0%Z); ("yo", 10%Z); ("hi", 30%Z); ("hi", 59%Z)])) = 1%nat.
Proof.
  apply duplicates_in_window_published_once.
  - done.
  - reflexivity.
  - reflexivity.
  - apply (bool_decide_unpack _). vm_compute. reflexivity.
  - apply (bool_decide_unpack _). vm_compute. reflexivity.
  - vm_compute. discriminate.
Defined.

End BilibiliFacts.

Module HubFacts.
Import Hub.

Lemma try_send_bound c data :
  (length (Send c) <= SendCap c)%nat ->
  (length (Send (fst (try_send c data))) <= SendCap (fst (try_send c data)))%nat.
Proof.
  unfold try_send. case_decide; simpl; [rewrite length_app; simpl; lia|done].
Qed.

Lemma step_bounded marshal h h' :
  step marshal h h' -> bounded h -> bounded h'.
Proof.
  intros Hs [Hc Hb]. destruct Hs as [h id|h id|h id w|h id|h d|h d rest now Hq].
  - split; [|done]. intros id' c. simpl.
    destruct (decide (id = id')) as [<-|Hne].
    + rewrite lookup_insert_eq. intros [= <-]. simpl. unfold sendCap. lia.
    + rewrite lookup_insert_ne by done. apply Hc.
  - split; [|done]. intros id' c. simpl.
    destruct (decide (id = id')) as [<-|Hne].
    + by rewrite lookup_delete_eq.
    + rewrite lookup_delete_ne by done. apply Hc.
  - unfold welcome. destruct (clients h !! id) as [c0|] eqn:E; [|by split].
    split; [|done]. intros id' c. simpl.
    destruct (decide (id = id')) as [<-|Hne].
    + rewrite lookup_insert_eq. intros [= <-]. apply try_send_bound. by apply (Hc id).
    + rewrite lookup_insert_ne by done. apply Hc.
  - unfold writePump. destruct (clients h !! id) as [c0|] eqn:E; [|by split].
    destruct (Send c0) as [|f rest] eqn:Es; [by split|].
    split; [|done]. intros id' c. simpl.
    destruct (decide (id = id')) as [<-|Hne].
    + rewrite lookup_insert_eq. intros [= <-]. simpl.
      specialize (Hc id c0 E). rewrite Es in Hc. simpl in Hc. lia.
    + rewrite lookup_insert_ne by done. apply Hc.
  - unfold Broadcast. case_decide; [|by split].
    split; [done|]. simpl. rewrite length_app. simpl. lia.
  - unfold broadcastDanmaku. simpl. destruct (marshal d now) as [data|].
    + split; simpl.
      * intros id c. rewrite lookup_fmap.
        destruct (clients h !! id) as [c0|] eqn:E; [|done]. simpl.
        intros [= <-]. apply try_send_bound. by apply (Hc id).
      * rewrite Hq in Hb. simpl in Hb. lia.
    + split; simpl; [done|]. rewrite Hq in Hb. simpl in Hb. lia.
Qed.

Lemma reachable_bounded marshal h : reachable marshal h -> bounded h.
Proof.
  unfold reachable. revert h. apply rtc_ind_r.
  - split; [|simpl; unfold broadcastCap; lia]. intros id c. simpl.
    by rewrite lookup_empty.
  - intros h h' _ Hb Hs. by apply (step_bounded marshal h h').
Qed.

(** Claim C9: in every state the hub can reach, every client's outbound
    queue holds at most its capacity (256) and the inbox at most 1000
    danmaku; and a broadcast serialises the danmaku once and performs a
    non-blocking send of that one frame into every client's queue: a
    client with room gets the frame appended, a full client's queue is
    left as it was (the frame is dropped for it alone), no client is
    added or removed, and a serialisation error leaves the hub
    unchanged. Every operation of the hub is a total function: none of
    them waits for a client. *)
Theorem hub_broadcast_bounded (marshal : Danmaku -> Z -> option bytes)
    (h : DanmakuHub) :
  reachable marshal h ->
  (forall id c, clients h !! id = Some c -> (length (Send c) <= SendCap c)%nat) /\
  (length (broadcast h) <= broadcastCap)%nat /\
  (forall d now,
     match marshal d now with
     | None => fst (broadcastDanmaku marshal h d now) = h
     | Some data =>
         broadcast (fst (broadcastDanmaku marshal h d now)) = broadcast h /\
         (forall id, is_Some (clients (fst (broadcastDanmaku marshal h d now)) !! id)
                     <-> is_Some (clients h !! id)) /\
         (forall id c, clients h !! id = Some c ->
            clients (fst (broadcastDanmaku marshal h d now)) !! id
            = Some (if decide (length (Send c) < SendCap c)%nat
                    then mkClient (ID c) (app (Send c) [data]) (SendCap c)
                    else c))
     end).
Proof.
  intros Hr. destruct (reachable_bounded marshal h Hr) as [Hc Hb].
  split; [done|]. split; [done|]. intros d now.
  unfold broadcastDanmaku. destruct (marshal d now) as [data|]; [|done].
  simpl. split; [done|]. split.
  - intros id. rewrite lookup_fmap. by destruct (clients h !! id).
  - intros id c E. rewrite lookup_fmap, E. simpl. unfold try_send.
    by case_decide.
Qed.

Lemma hub_broadcast_bounded_witness :
  let m := fun (d : Danmaku) (_ : Z) => Some (list_byte_of_string (Content d)) in
  reachable m (registerClient NewDanmakuHub "c1") /\
  clients (fst (broadcastDanmaku m (registerClient NewDanmakuHub "c1")
                  (mkDanmaku "u" "1" "hi" 0) 0)) !! "c1"
  = Some (mkClient "c1" [list_byte_of_string "hi"] sendCap).
Proof.
  intros m. assert (Hr : reachable m (registerClient NewDanmakuHub "c1")).
  { apply rtc_once. apply step_register. }
  split; [exact Hr|].
  destruct (hub_broadcast_bounded m _ Hr) as (_ & _ & Hb).
  specialize (Hb (mkDanmaku "u" "1" "hi" 0) 0%Z). simpl in Hb.
  destruct Hb as (_ & _ & Hb).
  etransitivity; [apply (Hb "c1" (mkClient "c1" [] sendCap)); reflexivity|].
  reflexivity.
Defined.

End HubFacts.

Module GoStrFacts.
Import GoStr GoStrMore.

Lemma substring_length n m s :
  String.length (substring n m s) = Nat.min m (String.length s - n).
Proof.
  revert n m. induction s as [|c s IH]; intros n m.
  - destruct n, m; simpl; lia.
  - destruct n as [|n]; destruct m as [|m]; simpl; rewrite ?IH; simpl; lia.
Qed.

Lemma substring_full s : substring 0 (String.length s) s = s.
Proof. induction s as [|c s IH]; simpl; [done|by rewrite IH]. Qed.

Lemma slice_eq_spec s sub j :
  slice_eq s sub j = true <-> substring j (String.length sub) s = sub.
Proof. unfold slice_eq. apply String.eqb_eq. Qed.

(** Past [len(s) - len(substr)] no slice can match a non-empty pattern. *)
Lemma slice_eq_past s sub j :
  (0 < String.length sub)%nat -> (String.length s < j + String.length sub)%nat ->
  substring j (String.length sub) s <> sub.
Proof.
  intros Hp Hj Heq. pose proof (substring_length j (String.length sub) s) as L.
  rewrite Heq in L. lia.
Qed.

Lemma find_loop_spec s sub i fuel :
  (find_loop s sub i fuel = (-1)%Z /\
     forall j, (i <= j < i + fuel)%nat -> slice_eq s sub j = false) \/
  (exists k, find_loop s sub i fuel = Z.of_nat k /\ (i <= k < i + fuel)%nat /\
     slice_eq s sub k = true /\
     forall j, (i <= j < k)%nat -> slice_eq s sub j = false).
Proof.
  revert i. induction fuel as [|fuel IH]; intros i; simpl.
  - left. split; [done|]. intros; lia.
  - destruct (slice_eq s sub i) eqn:E.
    + right. exists i. split; [done|]. split; [lia|]. split; [done|]. intros; lia.
    + destruct (IH (S i)) as [[H1 H2]|(k & H1 & H2 & H3 & H4)].
      * left. split; [done|]. intros j Hj.
        destruct (Nat.eq_dec j i) as [->|]; [done|]. apply H2. lia.
      * right. exists k. repeat split; try done; try lia.
        intros j Hj. destruct (Nat.eq_dec j i) as [->|]; [done|]. apply H4. lia.
Qed.

(** [findSubstring] (the same loop in comfyui_manager.go and in
    bilibili.go) returns the first index at which [substr] occurs in [s],
    and -1 exactly when it occurs nowhere. *)
Theorem findSubstring_first_occurrence (s sub : string) :
  (findSubstring s sub = (-1)%Z /\
     forall j, substring j (String.length sub) s <> sub) \/
  (exists k, findSubstring s sub = Z.of_nat k /\
     (k + String.length sub <= String.length s)%nat /\
     substring k (String.length sub) s = sub /\
     forall j, (j < k)%nat -> substring j (String.length sub) s <> sub).
Proof.
  unfold findSubstring.
  destruct (Nat.ltb_spec (String.length s) (String.length sub)) as [Hlt|Hge].
  - left. split; [done|]. intros j. apply slice_eq_past; lia.
  - destruct (find_loop_spec s sub 0 (S (String.length s - String.length sub)))
      as [[H1 H2]|(k & H1 & H2 & H3 & H4)].
    + left. split; [done|]. intros j Hj.
      destruct (Nat.lt_ge_cases j (S (String.length s - String.length sub))) as [Hj'|Hj'].
      * apply slice_eq_spec in Hj. rewrite H2 in Hj; [done|lia].
      * destruct (Nat.eq_dec (String.length sub) 0) as [L|L].
        { assert (H0 : slice_eq s sub 0 = true).
          { apply slice_eq_spec. destruct sub; [|simpl in L; lia]. by destruct s. }
          rewrite H2 in H0; [done|lia]. }
        revert Hj. apply slice_eq_past; lia.
    + right. exists k. split; [done|]. split.
      * destruct (Nat.eq_dec (String.length sub) 0) as [L|L]; [lia|].
        apply slice_eq_spec in H3. pose proof (substring_length k (String.length sub) s) as LL.
        rewrite H3 in LL. lia.
      * split; [by apply slice_eq_spec|]. intros j Hj Heq.
        apply slice_eq_spec in Heq. rewrite H4 in Heq; [done|lia].
Qed.

Lemma strings_contains_loop_find s sub i fuel :
  strings_contains_loop s sub i fuel = Z.leb 0 (find_loop s sub i fuel).
Proof.
  revert i. induction fuel as [|fuel IH]; intros i; simpl; [done|].
  destruct (slice_eq s sub i); simpl; [symmetry; apply Z.leb_le; lia|apply IH].
Qed.

Lemma containsSubstring_iff s sub :
  containsSubstring s sub = true <-> exists j, substring j (String.length sub) s = sub.
Proof.
  unfold containsSubstring.
  destruct (findSubstring_first_occurrence s sub) as [[H1 H2]|(k & H1 & H2 & H3 & H4)].
  - rewrite H1. rewrite andb_false_r. split; [done|]. intros [j Hj]. by destruct (H2 j).
  - rewrite H1. split; [intros _; by exists k|intros _].
    apply andb_true_intro. split; apply Nat.leb_le || apply Z.leb_le; lia.
Qed.

(** [contains] of comfyui_manager.go, although documented as
    case-insensitive, is exactly the case-sensitive substring test
    [containsSubstring]: it holds iff [substr] occurs in [s] byte for byte. *)
Theorem contains_is_substring_test (s sub : string) :
  contains s sub = containsSubstring s sub /\
  (containsSubstring s sub = true <->
     exists j, substring j (String.length sub) s = sub).
Proof.
  split; [|apply containsSubstring_iff].
  unfold contains, containsSubstring, stringsContains, findSubstring.
  destruct (Nat.leb_spec (String.length sub) (String.length s)) as [Hle|Hgt];
    simpl; [|done].
  destruct (Nat.ltb_spec (String.length s) (String.length sub)); [lia|].
  rewrite strings_contains_loop_find.
  destruct (String.eqb_spec s sub) as [->|]; cbn [orb].
  - assert (E : slice_eq sub sub 0 = true).
    { unfold slice_eq. by rewrite substring_full, String.eqb_refl. }
    by rewrite E.
  - destruct (Nat.eqb_spec (String.length sub) 0) as [L|]; cbn [orb];
      [|by destruct (slice_eq s sub 0)].
    assert (E : slice_eq s sub 0 = true).
    { destruct sub; [|simpl in L; lia]. unfold slice_eq. by destruct s. }
    by rewrite E.
Qed.

End GoStrFacts.

Module SplitFacts.
Import StoryEngine.

Lemma str_app_assoc a b c :
  String.append (String.append a b) c = String.append a (String.append b c).
Proof. induction a as [|x a IH]; [done|exact (f_equal (String x) IH)]. Qed.

Lemma str_app_nil a : String.append a EmptyString = a.
Proof. induction a as [|x a IH]; [done|exact (f_equal (String x) IH)]. Qed.

Lemma str_app_ascii a b :
  list_ascii_of_string (String.append a b) = app (list_ascii_of_string a) (list_ascii_of_string b).
Proof. induction a as [|x a IH]; [done|exact (f_equal (cons x) IH)]. Qed.

Lemma splitLines_go_cons s sep cur :
  exists x xs, splitLines_go s sep cur = x :: xs.
Proof.
  revert cur. induction s as [|c s IH]; intros cur; simpl; [by eexists _, _|].
  destruct (Ascii.eqb c sep); [by eexists _, _|apply IH].
Qed.

Lemma splitLines_go_concat s sep cur :
  String.concat (String sep EmptyString) (splitLines_go s sep cur) = String.append cur s.
Proof.
  revert cur. induction s as [|c s IH]; intros cur; simpl.
  - by rewrite str_app_nil.
  - destruct (Ascii.eqb_spec c sep) as [->|Hne].
    + destruct (splitLines_go_cons s sep "") as (x & xs & E).
      rewrite E.
      change (String.append cur (String.append (String sep EmptyString)
        (String.concat (String sep EmptyString) (x :: xs))) = String.append cur (String sep s)).
      rewrite <- E, IH. reflexivity.
    + rewrite IH. by rewrite str_app_assoc.
Qed.

Lemma splitLines_go_no_sep s sep cur :
  ~ In sep (list_ascii_of_string cur) ->
  Forall (fun p => ~ In sep (list_ascii_of_string p)) (splitLines_go s sep cur).
Proof.
  revert cur. induction s as [|c s IH]; intros cur Hcur; simpl.
  - by constructor.
  - destruct (Ascii.eqb_spec c sep) as [->|Hne].
    + constructor; [done|]. apply IH. simpl. tauto.
    + apply IH. rewrite str_app_ascii. simpl. rewrite in_app_iff. simpl.
      intros [H|[H|[]]]; [done|congruence].
Qed.

(** [splitLines] with a one-byte separator cuts the text at every
    occurrence of the separator: joining the pieces with the separator
    gives the text back, and no piece contains the separator. *)
Theorem splitLines_join_roundtrip (s : string) (sep : ascii) :
  String.concat (String sep EmptyString) (splitLines s sep) = s /\
  Forall (fun p => ~ In sep (list_ascii_of_string p)) (splitLines s sep).
Proof.
  split; [apply splitLines_go_concat|]. apply splitLines_go_no_sep. simpl. tauto.
Qed.

(** [extractSceneDescription] returns one line of the generated text: it
    contains no newline, and it is longer than 10 bytes whenever some line
    of the text is. *)
Theorem extractSceneDescription_one_line (text : string) :
  In (extractSceneDescription text) (splitLines text newline) /\
  ~ In newline (list_ascii_of_string (extractSceneDescription text)) /\
  ((exists line, In line (splitLines text newline) /\ (10 < String.length line)%nat) ->
   (10 < String.length (extractSceneDescription text))%nat).
Proof.
  pose proof (proj2 (splitLines_join_roundtrip text newline)) as Hno.
  unfold extractSceneDescription.
  destruct (splitLines text newline) as [|l0 lines] eqn:E.
  { destruct (splitLines_go_cons text newline "") as (x & xs & E').
    unfold splitLines in E. congruence. }
  destruct (List.find _ _) as [line|] eqn:F.
  - apply List.find_some in F as [Hin Hlt].
    split; [done|]. split; [by rewrite List.Forall_forall in Hno; apply Hno|].
    intros _. by apply Nat.ltb_lt.
  - split; [by left|]. split; [by inversion Hno|].
    intros (line & Hin & Hlt). eapply List.find_none in F; [|exact Hin].
    apply Nat.ltb_nlt in F. lia.
Qed.

End SplitFacts.

Module StoryOpsFacts.
Import StoryEngine StoryOps.

(** [EndStory] removes exactly the story it names (a missing id is an
    error that leaves the map as it is), and a later [ApplyOption] on
    the ended story fails with "story not found" without touching the
    map, whatever the model would answer. *)
Theorem EndStory_then_ApplyOption (e : gmap string StoryState) (id : string)
    (llm : ChatOutcome) :
  EndStory e id =
    (delete id e, match e !! id with
                  | Some _ => inr tt
                  | None => inl (StoryNotFound id)
                  end) /\
  ApplyOption (EndStory e id).1 id llm = ((EndStory e id).1, inl (StoryNotFound id)).
Proof.
  unfold EndStory, GetStoryState, ApplyOption.
  destruct (e !! id) eqn:E.
  - split; [done|]. cbn [fst]. unfold GenerateStorySegment.
    by rewrite lookup_delete_eq.
  - rewrite delete_id by done. split; [done|]. cbn [fst].
    unfold GenerateStorySegment. by rewrite E.
Qed.

(** [GenerateStorySegment] (and so [ApplyOption]) changes at most the
    story it names: on an error the map is unchanged, and the error is
    "story not found" exactly when the id is absent; on success only that
    story's previous text and options are replaced, by the generated text
    and the options parsed from it, while its stored scene is kept (the
    scene extracted from the text is only returned). *)
Theorem GenerateStorySegment_updates_one_story (e : gmap string StoryState)
    (id : string) (llm : ChatOutcome) :
  match GenerateStorySegment e id llm with
  | (e', inl err) => e' = e /\ (err = StoryNotFound id <-> e !! id = None)
  | (e', inr resp) =>
      exists cur, e !! id = Some cur /\
        (exists rest, llm = ChatChoices (RespText resp :: rest)) /\
        RespOptions resp = parseOptionsFromResponse (RespText resp) /\
        RespScene resp = extractSceneDescription (RespText resp) /\
        e' = <[id := set_after_generation cur (RespText resp) (RespOptions resp)]> e
  end.
Proof.
  unfold GenerateStorySegment.
  destruct (e !! id) as [cur|] eqn:E.
  - destruct llm as [|[|t ts]]; simpl.
    + split; [done|]. split; [discriminate|congruence].
    + split; [done|]. split; [discriminate|congruence].
    + exists cur. repeat split. by exists ts.
  - by split.
Qed.

End StoryOpsFacts.

Module TemplateFacts.
Import Templates.

Lemma app_assoc_s a b c :
  String.append (String.append a b) c = String.append a (String.append b c).
Proof. induction a as [|x a IH]; [done|exact (f_equal (String x) IH)]. Qed.

Lemma app_nil_s a : String.append a EmptyString = a.
Proof. induction a as [|x a IH]; [done|exact (f_equal (String x) IH)]. Qed.

Lemma length_app_s a b :
  String.length (String.append a b) = (String.length a + String.length b)%nat.
Proof. induction a as [|x a IH]; [done|exact (f_equal S IH)]. Qed.

Lemma concat_nil_cons x xs :
  String.concat EmptyString (x :: xs) = String.append x (String.concat EmptyString xs).
Proof. destruct xs; [by rewrite app_nil_s|done]. Qed.

Lemma take_word_app r w r' : take_word r = (w, r') -> r = String.append w r'.
Proof.
  revert w r'. induction r as [|c r IH]; intros w r' H; simpl in H.
  - by inversion H.
  - destruct (is_word c); [|by inversion H].
    destruct (take_word r) as [w0 r0] eqn:E. inversion H; subst.
    exact (f_equal (String c) (IH w0 r' eq_refl)).
Qed.

Lemma take_word_word w rest :
  forallb is_word (list_ascii_of_string w) = true ->
  take_word (String.append w (String rbrace rest)) = (w, String rbrace rest).
Proof.
  induction w as [|c w IH]; intros H; simpl in *.
  - reflexivity.
  - apply andb_prop in H as [Hc Hw]. rewrite Hc, IH by done. reflexivity.
Qed.

Lemma match_at_sound s w rest :
  match_at s = Some (w, rest) -> s = String.append (placeholder w) rest.
Proof.
  unfold match_at. destruct s as [|a [|b r]]; try discriminate.
  destruct (Ascii.eqb_spec a lbrace); destruct (Ascii.eqb_spec b lbrace);
    try discriminate; subst; simpl.
  destruct (take_word r) as [w0 r0] eqn:E.
  apply take_word_app in E. subst r.
  destruct w0 as [|x w0]; [discriminate|].
  destruct r0 as [|c [|d r'']]; try discriminate.
  destruct (Ascii.eqb_spec c rbrace); destruct (Ascii.eqb_spec d rbrace);
    try discriminate; subst. intros H; inversion H; subst.
  unfold placeholder. rewrite !app_assoc_s. reflexivity.
Qed.

Lemma match_at_placeholder w rest :
  w <> EmptyString -> forallb is_word (list_ascii_of_string w) = true ->
  match_at (String.append (placeholder w) rest) = Some (w, rest).
Proof.
  intros Hne Hw. unfold placeholder. rewrite !app_assoc_s.
  change (String.append "}}" rest) with (String rbrace (String rbrace rest)).
  change (String.append "{{" ?x) with (String lbrace (String lbrace x)).
  unfold match_at. rewrite Ascii.eqb_refl. cbn [andb].
  rewrite take_word_word by done.
  destruct w; [done|]. reflexivity.
Qed.

Lemma match_at_no_brace c r :
  c <> lbrace -> match_at (String c r) = None.
Proof.
  intros H. unfold match_at. destruct r as [|b r]; [done|].
  by destruct (Ascii.eqb_spec c lbrace).
Qed.

Lemma match_at_length s w rest :
  match_at s = Some (w, rest) -> (String.length rest < String.length s)%nat.
Proof.
  intros H. apply match_at_sound in H. subst s. unfold placeholder.
  rewrite !length_app_s. simpl. lia.
Qed.

Lemma tokenize_fuel f1 f2 s :
  (String.length s <= f1)%nat -> (String.length s <= f2)%nat ->
  tokenize f1 s = tokenize f2 s.
Proof.
  revert f2 s. induction f1 as [|f1 IH]; intros f2 s H1 H2.
  - destruct s; [|simpl in H1; lia]. by destruct f2.
  - destruct f2 as [|f2].
    + destruct s; [done|simpl in H2; lia].
    + destruct s as [|c r]; [done|]. cbn [tokenize].
      destruct (match_at (String c r)) as [[w rest]|] eqn:M.
      * apply match_at_length in M. simpl in M, H1, H2. f_equal. apply IH; lia.
      * simpl in H1, H2. f_equal. apply IH; lia.
Qed.

Lemma chars_literal s :
  String.concat EmptyString (map literal (map TChar (list_ascii_of_string s))) = s.
Proof.
  induction s as [|c s IH]; [done|]. cbn [list_ascii_of_string map].
  rewrite concat_nil_cons, IH. reflexivity.
Qed.

Lemma tokenize_literal f s :
  String.concat EmptyString (map literal (tokenize f s)) = s.
Proof.
  revert s. induction f as [|f IH]; intros s; [apply chars_literal|].
  destruct s as [|c r]; [done|]. cbn [tokenize].
  destruct (match_at (String c r)) as [[w rest]|] eqn:M.
  - cbn [map]. rewrite concat_nil_cons, IH. symmetry. by apply match_at_sound.
  - cbn [map]. rewrite concat_nil_cons, IH. reflexivity.
Qed.

Lemma tokenize_no_brace a rest f :
  ~ In lbrace (list_ascii_of_string a) ->
  (String.length a <= f)%nat ->
  tokenize f (String.append a rest) =
    app (map TChar (list_ascii_of_string a)) (tokenize (f - String.length a) rest).
Proof.
  revert f. induction a as [|c a IH]; intros f Hn Hf.
  - simpl. by rewrite Nat.sub_0_r.
  - destruct f as [|f]; [simpl in Hf; lia|]. simpl in Hn, Hf.
    change (String.append (String c a) rest) with (String c (String.append a rest)).
    cbn [tokenize].
    rewrite match_at_no_brace by tauto. cbn [list_ascii_of_string map app].
    f_equal. rewrite IH by (tauto || lia). reflexivity.
Qed.

Lemma render_tokens_unset ctx ts :
  (forall v, In (TVar v) ts -> (getVariableValue ctx v).2 = false) ->
  map (render_token ctx) ts = map literal ts.
Proof.
  induction ts as [|t ts IH]; intros Hv; [done|]. cbn [map]. f_equal.
  - destruct t as [c|name]; [done|]. cbn [render_token literal].
    specialize (Hv name (or_introl eq_refl)).
    destruct (getVariableValue ctx name) as [value ok]. simpl in Hv. by subst ok.
  - apply IH. intros v Hin. apply Hv. by right.
Qed.

Lemma concat_app_s l1 l2 :
  String.concat EmptyString (app l1 l2) =
    String.append (String.concat EmptyString l1) (String.concat EmptyString l2).
Proof.
  induction l1 as [|x l1 IH]; [done|]. cbn [app].
  by rewrite !concat_nil_cons, IH, app_assoc_s.
Qed.

Lemma render_chars ctx l :
  String.concat EmptyString (map (render_token ctx) (map TChar (list_ascii_of_string l))) = l.
Proof.
  rewrite render_tokens_unset; [apply chars_literal|].
  intros v Hin. apply in_map_iff in Hin as (c & Hc & _). discriminate.
Qed.

Lemma tokenize_placeholder w b f :
  w <> EmptyString -> forallb is_word (list_ascii_of_string w) = true ->
  tokenize (S f) (String.append (placeholder w) b) = TVar w :: tokenize f b.
Proof.
  intros Hne Hw.
  assert (E : String.append (placeholder w) b =
              String lbrace (String lbrace (String.append w (String.append "}}" b))))
    by (unfold placeholder; rewrite !app_assoc_s; reflexivity).
  rewrite E. cbn [tokenize]. rewrite <- E.
  by rewrite match_at_placeholder.
Qed.

Lemma fold_vars l (acc : gset string) x :
  x ∈ fold_left (fun acc t => match t with TVar v => {[v]} ∪ acc | TChar _ => acc end)
        l acc <-> x ∈ acc \/ In (TVar x) l.
Proof.
  revert acc. induction l as [|t l IH]; intros acc; simpl; [tauto|].
  rewrite IH. destruct t as [c|v]; [intuition congruence|].
  rewrite elem_of_union, elem_of_singleton. intuition congruence.
Qed.

Section WithCustomOrder.
Variable custom_order : gmap string string -> list (string * string).

(** A template whose variables all lack a value (no context field set,
    no custom map) is rendered unchanged: every [{{name}}] is kept. *)
Theorem render_keeps_unset_placeholders (tmpl : Template) (ctx : TemplateContext)
    (Hc : Custom ctx = None)
    (Hv : forall v, In (TVar v) (matches (Content tmpl)) -> (getVariableValue ctx v).2 = false) :
  renderTemplate custom_order tmpl ctx = Content tmpl.
Proof.
  unfold renderTemplate. rewrite Hc. unfold matches in *.
  rewrite render_tokens_unset by done. apply tokenize_literal.
Qed.

(** A placeholder whose variable has a value is replaced by that value
    verbatim (the value is not scanned again for placeholders), the text
    before it is copied, and the text after it is rendered on its own. *)
Theorem render_substitutes_placeholder (n : string) (vars : list string)
    (d a w b v : string) (ctx : TemplateContext)
    (Ha : ~ In lbrace (list_ascii_of_string a))
    (Hw : w <> EmptyString) (Hword : forallb is_word (list_ascii_of_string w) = true)
    (Hc : Custom ctx = None) (Hval : getVariableValue ctx w = (v, true)) :
  renderTemplate custom_order
      (mkTemplate n (String.append a (String.append (placeholder w) b)) vars d) ctx =
    String.append a (String.append v (renderTemplate custom_order (mkTemplate n b vars d) ctx)).
Proof.
  unfold renderTemplate. rewrite Hc. cbn [Content]. unfold matches.
  rewrite tokenize_no_brace by (done || (rewrite length_app_s; lia)).
  replace (S (String.length (String.append a (String.append (placeholder w) b)))
           - String.length a)%nat
    with (S (String.length (String.append (placeholder w) b)))
    by (rewrite !length_app_s; lia).
  rewrite tokenize_placeholder by done.
  rewrite (tokenize_fuel (String.length (String.append (placeholder w) b))
             (S (String.length b)) b)
    by (unfold placeholder; rewrite ?length_app_s; simpl; lia).
  rewrite map_app, concat_app_s, render_chars. cbn [map].
  rewrite concat_nil_cons. cbn [render_token]. rewrite Hval. reflexivity.
Qed.

End WithCustomOrder.

(** [ParseTemplateVariables] lists each variable name of the template
    once: the names of the [{{name}}] matches, without duplicates (for
    any iteration order of Go's map, i.e. any enumeration of the set). *)
Theorem ParseTemplateVariables_spec (key_order : gset string -> list string)
    (Hko : forall X, key_order X ≡ₚ elements X) (content : string) :
  NoDup (ParseTemplateVariables key_order content) /\
  (forall v, In v (ParseTemplateVariables key_order content) <->
             In (TVar v) (matches content)).
Proof.
  unfold ParseTemplateVariables. split.
  - rewrite (Hko _). apply NoDup_elements.
  - intros v. rewrite <- list_elem_of_In, (Hko _), elem_of_elements.
    rewrite fold_vars. set_solver.
Qed.

Lemma render_keeps_unset_placeholders_witness :
  renderTemplate (fun m => map_to_list m)
    (mkTemplate "scene" "At {{current_scene}}: {{hero}}!" [] "")
    (mkTemplateContext "" "" "" "" "Li" "" "" "" "" "" "" None) =
  "At {{current_scene}}: {{hero}}!".
Proof.
  apply (render_keeps_unset_placeholders (fun m => map_to_list m)); [reflexivity|].
  intros v Hin. vm_compute in Hin.
  repeat (destruct Hin as [Hin|Hin]; [first [discriminate | injection Hin as <-; reflexivity]|]).
  destruct Hin.
Defined.

Lemma render_substitutes_placeholder_witness :
  renderTemplate (fun m => map_to_list m)
    (mkTemplate "t" (String.append "Hero: " (String.append (placeholder "protagonist") "!")) [] "")
    (mkTemplateContext "" "" "" "" "{{genre}}" "" "" "" "wuxia" "" "" None) =
  String.append "Hero: " (String.append "{{genre}}"
    (renderTemplate (fun m => map_to_list m) (mkTemplate "t" "!" [] "")
       (mkTemplateContext "" "" "" "" "{{genre}}" "" "" "" "wuxia" "" "" None))).
Proof.
  apply (render_substitutes_placeholder (fun m => map_to_list m)).
  - intros H. vm_compute in H. repeat (destruct H as [H|H]; [discriminate|]). destruct H.
  - discriminate.
  - reflexivity.
  - reflexivity.
  - reflexivity.
Defined.

Lemma ParseTemplateVariables_spec_witness :
  NoDup (ParseTemplateVariables elements "{{a}} and {{b}} and {{a}}") /\
  (forall v, In v (ParseTemplateVariables elements "{{a}} and {{b}} and {{a}}") <->
             In (TVar v) (matches "{{a}} and {{b}} and {{a}}")).
Proof.
  apply (ParseTemplateVariables_spec elements). intros X. reflexivity.
Defined.

End TemplateFacts.

Module CacheOpsFacts.
Import ImageCache CacheOps.

Lemma remove_files_path fs p :
  remove_files fs p !! p = None /\ remove_files fs p !! String.append p ".meta" = None.
Proof.
  unfold remove_files. split; [|by rewrite lookup_delete_eq].
  destruct (decide (String.append p ".meta" = p)) as [E|E].
  - rewrite E. by rewrite lookup_delete_eq.
  - rewrite lookup_delete_ne by done. by rewrite lookup_delete_eq.
Qed.

Lemma remove_files_other fs p q :
  q <> p -> q <> String.append p ".meta" -> remove_files fs p !! q = fs !! q.
Proof.
  intros H1 H2. unfold remove_files. by rewrite !lookup_delete_ne by done.
Qed.

Lemma remove_files_none fs p q : fs !! q = None -> remove_files fs p !! q = None.
Proof.
  intros H. unfold remove_files. apply lookup_delete_None. right.
  apply lookup_delete_None. by right.
Qed.

Lemma join_meta dir name :
  Join dir (String.append name ".meta") = String.append (Join dir name) ".meta".
Proof. unfold Join. by rewrite !TemplateFacts.app_assoc_s. Qed.

Lemma neq_meta p : p <> String.append p ".meta".
Proof.
  intros H. apply (f_equal String.length) in H.
  rewrite TemplateFacts.length_app_s in H. simpl in H. lia.
Qed.

(** [Check] says yes exactly when [Get] would count a hit; when it says
    no, [Get] fails with a cache miss or an expiry. *)
Theorem Check_agrees_with_Get (c : ImageCache) (fs : FS) (now : Z) (key : string) :
  (Check c now key = true <->
   SHits (stats (Get c fs now key).1.1) = (SHits (stats c) + 1)%Z) /\
  (Check c now key = false ->
   (Get c fs now key).2 = inl CacheMissErr \/ (Get c fs now key).2 = inl CacheExpired).
Proof.
  unfold Check, Get.
  destruct (entries c !! key) as [entry|]; cbn.
  - destruct (expired c now entry); cbn.
    + split; [split; [discriminate|lia]|by right].
    + split; [|discriminate]. split; [|done]. intros _.
      destruct (length (ImageData entry)); [done|].
      by destruct (fs !! FilePath entry).
  - split; [split; [discriminate|lia]|by left].
Qed.

(** [Get] on an expired entry fails with "expired", drops the entry
    from the map and deletes its image and [.meta] files; any later
    [Get] of the key is then a plain miss. *)
Theorem Get_expired_removes_entry (c : ImageCache) (fs : FS) (now now' : Z)
    (key : string) (e : CacheEntry)
    (He : entries c !! key = Some e) (Hx : expired c now e = true) :
  let '(c1, fs1, r) := Get c fs now key in
  r = inl CacheExpired /\ entries c1 = delete key (entries c) /\
  fs1 !! FilePath e = None /\ fs1 !! String.append (FilePath e) ".meta" = None /\
  (Get c1 fs1 now' key).2 = inl CacheMissErr.
Proof.
  unfold Get at 1. rewrite He, Hx. cbn.
  pose proof (remove_files_path fs (FilePath e)) as [H1 H2].
  repeat split; try done.
  unfold Get. cbn. by rewrite lookup_delete_eq.
Qed.

(** [Invalidate] drops the key from the map (a missing key is a no-op),
    decrements [TotalEntries] only when the key was present, and is
    idempotent. *)
Theorem Invalidate_spec (c : ImageCache) (fs : FS) (key : string) :
  let '(c1, fs1) := Invalidate c fs key in
  entries c1 = delete key (entries c) /\
  STotalEntries (stats c1) =
    (STotalEntries (stats c) - match entries c !! key with Some _ => 1 | None => 0 end)%Z /\
  Invalidate c1 fs1 key = (c1, fs1).
Proof.
  unfold Invalidate at 1. destruct (entries c !! key) as [entry|] eqn:E; cbn.
  - split; [done|]. split; [lia|].
    unfold Invalidate. cbn. by rewrite lookup_delete_eq.
  - rewrite delete_id by done. split; [done|]. split; [lia|].
    unfold Invalidate. by rewrite E.
Qed.

(** [Put] whose [.meta] write fails returns the error after the image
    file was written (the encoding error when [json.MarshalIndent] fails
    first): no entry is added, and a restart's [Initialize] skips the
    image (it has no [.meta] file), so the file stays on disk
    unreferenced. *)
Theorem Put_meta_failure_orphans_image (iter_order : gmap string CacheEntry -> list (string * CacheEntry))
    (writable : string -> bool) (marshal : CacheMeta -> option OptFloats -> bytes)
    (unmarshal : bytes -> option CacheMeta)
    (c : ImageCache) (fs : FS) (now now' : Z) (key : string) (data : bytes) (prompt : string)
    (opts : option OptFloats)
    (Hw : writable (blob_path (directory c) key) = true)
    (Hm : writable (String.append (blob_path (directory c) key) ".meta") = false)
    (Hnometa : fs !! String.append (blob_path (directory c) key) ".meta" = None) :
  match Put iter_order writable marshal c fs now key data prompt opts with
  | None => False
  | Some (c1, fs1, r) =>
      r = inl (if options_marshalable opts then WriteFailed else MarshalFailed) /\ c1 = c /\
      fs1 !! blob_path (directory c) key = Some data /\
      Initialize unmarshal (NewImageCache (directory c) (maxEntries c) (ttl c)) fs1 now'
        [mkDirEntry (String.append key ".png") false] =
        (NewImageCache (directory c) (maxEntries c) (ttl c), fs1)
  end.
Proof.
  assert (Hinit : Initialize unmarshal (NewImageCache (directory c) (maxEntries c) (ttl c))
                    (<[blob_path (directory c) key := data]> fs) now'
                    [mkDirEntry (String.append key ".png") false] =
                  (NewImageCache (directory c) (maxEntries c) (ttl c),
                   <[blob_path (directory c) key := data]> fs)).
  { unfold Initialize. cbn.
    rewrite join_meta.
    change (Join (directory c) (String.append key ".png")) with (blob_path (directory c) key).
    rewrite lookup_insert_ne, Hnometa; [done|].
    apply neq_meta. }
  unfold Put. rewrite Hw. cbn [negb].
  destruct (options_marshalable opts); cbn [negb]; [rewrite Hm|]; cbn [negb];
    (split; [done|]; split; [done|]; split; [by rewrite lookup_insert_eq|exact Hinit]).
Qed.

Lemma clean_fold now l c fs n :
  NoDup l.*1 ->
  (forall k e, In (k, e) l -> entries c !! k = Some e) ->
  let r := fold_left (clean_step now) l (c, fs, n) in
  ttl r.1.1 = ttl c /\
  (forall k, entries r.1.1 !! k =
     if existsb (fun kv => String.eqb kv.1 k && Z.ltb (ttl c) (now - CreatedAt kv.2)) l
     then None else entries c !! k) /\
  STotalEntries (stats r.1.1) = (STotalEntries (stats c) - (r.2 - n))%Z /\
  Z.of_nat (size (entries r.1.1)) = (Z.of_nat (size (entries c)) - (r.2 - n))%Z.
Proof.
  revert c fs n. induction l as [|[k0 e0] l IH]; intros c fs n Hnd Hin; cbn zeta.
  { cbn. repeat split; lia. }
  cbn [fold_left]. cbn [fmap list_fmap fst] in Hnd. apply NoDup_cons in Hnd as [Hk0 Hnd].
  assert (H0 : entries c !! k0 = Some e0) by (apply Hin; by left).
  cbn [clean_step existsb fst snd].
  destruct (Z.ltb (ttl c) (now - CreatedAt e0)) eqn:Ex.
  - set (c1 := set_stats (set_entries c (delete k0 (entries c)))
                 (remove_entry (stats c) (FileSize e0))).
    destruct (IH c1 (if String.eqb (FilePath e0) "" then fs else remove_files fs (FilePath e0))
                (n + 1)%Z Hnd) as (Ht & Hl & Hs & Hz).
    { intros k e Hke. cbn. rewrite lookup_delete_ne; [apply Hin; by right|].
      intros <-. apply Hk0. apply list_elem_of_In. apply in_map_iff. by exists (k0, e). }
    cbn [c1 ttl set_stats set_entries entries stats STotalEntries remove_entry] in *.
    split; [done|]. split; [|split].
    + intros k. rewrite Hl.
      destruct (String.eqb_spec k0 k) as [->|Hne]; cbn [andb orb].
      * rewrite lookup_delete_eq. by destruct (existsb _ l).
      * by rewrite lookup_delete_ne.
    + rewrite Hs. lia.
    + rewrite Hz. rewrite map_size_delete, H0.
      pose proof (map_size_ne_0_lookup_2 (entries c) k0 (ltac:(by eexists))). lia.
  - destruct (IH c fs n Hnd) as (Ht & Hl & Hs & Hz).
    { intros k e Hke. apply Hin. by right. }
    split; [done|]. split; [|done].
    intros k. rewrite Hl. destruct (String.eqb k0 k); done.
Qed.

(** [CleanExpired] with [ttl = 0] does nothing and reports 0; otherwise
    (whatever Go's map iteration order) it keeps exactly the entries with
    [now - CreatedAt <= ttl], returns the number of entries it dropped,
    and lowers [TotalEntries] by that number. *)
Theorem CleanExpired_spec (iter_order : gmap string CacheEntry -> list (string * CacheEntry))
    (Hperm : forall m, iter_order m ≡ₚ map_to_list m)
    (c : ImageCache) (fs : FS) (now : Z) :
  let '(c', fs', count) := CleanExpired iter_order c fs now in
  (ttl c = 0%Z -> c' = c /\ fs' = fs /\ count = 0%Z) /\
  (ttl c <> 0%Z ->
   entries c' = filter (fun kv => ~ (ttl c < now - CreatedAt kv.2)%Z) (entries c) /\
   count = (Z.of_nat (size (entries c)) - Z.of_nat (size (entries c')))%Z /\
   STotalEntries (stats c') = (STotalEntries (stats c) - count)%Z).
Proof.
  unfold CleanExpired. destruct (Z.eqb_spec (ttl c) 0) as [Ht0|Ht0].
  { split; [done|]. by intros. }
  destruct (clean_fold now (iter_order (entries c)) c fs 0) as (_ & Hl & Hs & Hz).
  { rewrite (Hperm _). apply NoDup_fst_map_to_list. }
  { intros k e Hke. apply list_elem_of_In in Hke. rewrite (Hperm _) in Hke.
    by apply elem_of_map_to_list. }
  destruct (fold_left _ _ _) as [[c' fs'] count]. cbn in *.
  split; [done|]. intros _. split; [|split; lia].
  apply map_eq. intros k. rewrite Hl, map_lookup_filter.
  destruct (entries c !! k) as [e|] eqn:Ek; cbn.
  - destruct (existsb _ _) eqn:Eb.
    + apply existsb_exists in Eb as ([k' e'] & Hin & Hb). cbn in Hb.
      apply andb_prop in Hb as [Hk Hlt]. apply String.eqb_eq in Hk. subst k'.
      apply list_elem_of_In in Hin. rewrite (Hperm _) in Hin.
      apply elem_of_map_to_list in Hin. rewrite Ek in Hin. injection Hin as ->.
      apply Z.ltb_lt in Hlt. by rewrite option_guard_False by tauto.
    + rewrite option_guard_True; [done|]. intros Hlt.
      assert (Hin : In (k, e) (iter_order (entries c))).
      { apply list_elem_of_In. rewrite (Hperm _). by apply elem_of_map_to_list. }
      assert (existsb (fun kv => String.eqb kv.1 k && Z.ltb (ttl c) (now - CreatedAt kv.2))
                (iter_order (entries c)) = true) as Ht.
      { apply existsb_exists. exists (k, e). split; [done|]. cbn.
        rewrite String.eqb_refl. by apply Z.ltb_lt. }
      congruence.
  - by destruct (existsb _ _).
Qed.

Lemma clear_fold_none l fs p :
  fs !! p = None -> fold_left clear_step l fs !! p = None.
Proof.
  revert fs. induction l as [|kv l IH]; intros fs H; [done|]. cbn.
  apply IH. unfold clear_step. destruct (String.eqb _ _); [done|].
  by apply remove_files_none.
Qed.

Lemma clear_fold l fs :
  (forall kv, In kv l -> FilePath kv.2 <> "" ->
     fold_left clear_step l fs !! FilePath kv.2 = None /\
     fold_left clear_step l fs !! String.append (FilePath kv.2) ".meta" = None) /\
  (forall p, (forall kv, In kv l -> p <> FilePath kv.2 /\ p <> String.append (FilePath kv.2) ".meta") ->
     fold_left clear_step l fs !! p = fs !! p).
Proof.
  revert fs. induction l as [|kv l IH]; intros fs; [done|]. cbn [fold_left].
  destruct (IH (clear_step fs kv)) as [IH1 IH2]. split.
  - intros kv' [<-|Hin] Hne; [|by apply IH1].
    unfold clear_step. apply String.eqb_neq in Hne as Hne'. rewrite Hne'.
    pose proof (remove_files_path fs (FilePath kv.2)) as [H1 H2].
    split; by apply clear_fold_none.
  - intros p Hp. rewrite IH2; [|intros kv' Hin; apply Hp; by right].
    unfold clear_step. destruct (String.eqb _ _); [done|].
    destruct (Hp kv (or_introl eq_refl)). by apply remove_files_other.
Qed.

(** [Clear] empties the map and resets the statistics; it deletes the
    image and [.meta] files of every entry that has a file path, and no
    other file. *)
Theorem Clear_spec (iter_order : gmap string CacheEntry -> list (string * CacheEntry))
    (Hperm : forall m, iter_order m ≡ₚ map_to_list m) (c : ImageCache) (fs : FS) :
  let '(c', fs') := Clear iter_order c fs in
  entries c' = ∅ /\ stats c' = mkCacheStats 0 0 0 0 /\
  (forall k e, entries c !! k = Some e -> FilePath e <> "" ->
     fs' !! FilePath e = None /\ fs' !! String.append (FilePath e) ".meta" = None) /\
  (forall p, (forall k e, entries c !! k = Some e ->
                p <> FilePath e /\ p <> String.append (FilePath e) ".meta") ->
     fs' !! p = fs !! p).
Proof.
  unfold Clear.
  destruct (clear_fold (iter_order (entries c)) fs) as [H1 H2].
  split; [done|]. split; [done|]. split.
  - intros k e Hke Hne. apply (H1 (k, e)); [|done].
    apply list_elem_of_In. rewrite (Hperm _). by apply elem_of_map_to_list.
  - intros p Hp. apply H2. intros [k e] Hin. apply (Hp k).
    apply list_elem_of_In in Hin. rewrite (Hperm _) in Hin. by apply elem_of_map_to_list.
Qed.

Lemma Get_expired_removes_entry_witness :
  let c := mkImageCache {["a" := ent "a" 5]} "data" 2 10 (mkCacheStats 0 0 1 1) in
  let '(c1, fs1, r) := Get c {["data/a.png" := [Byte.x01]]} 100 "a" in
  r = inl CacheExpired /\ entries c1 = delete "a" (entries c) /\
  fs1 !! FilePath (ent "a" 5) = None /\
  fs1 !! String.append (FilePath (ent "a" 5)) ".meta" = None /\
  (Get c1 fs1 200 "a").2 = inl CacheMissErr.
Proof.
  intros c.
  exact (Get_expired_removes_entry c {["data/a.png" := [Byte.x01]]} 100 200 "a" (ent "a" 5)
           eq_refl eq_refl).
Defined.

Lemma Put_meta_failure_orphans_image_witness :
  let c := NewImageCache "data" 2 0 in
  let writable := fun p => negb (String.eqb p "data/k.png.meta") in
  match Put (fun m => map_to_list m) writable (fun _ _ => [])
          c ∅ 7 "k" [Byte.x01] "a cat" None with
  | None => False
  | Some (c1, fs1, r) =>
      r = inl (if options_marshalable None then WriteFailed else MarshalFailed) /\ c1 = c /\
      fs1 !! blob_path (directory c) "k" = Some [Byte.x01] /\
      Initialize (fun _ => None) (NewImageCache (directory c) (maxEntries c) (ttl c)) fs1 9
        [mkDirEntry (String.append "k" ".png") false] =
        (NewImageCache (directory c) (maxEntries c) (ttl c), fs1)
  end.
Proof.
  intros c writable.
  exact (Put_meta_failure_orphans_image (fun m => map_to_list m) writable (fun _ _ => [])
           (fun _ => None) c ∅ 7 9 "k" [Byte.x01] "a cat" None eq_refl eq_refl eq_refl).
Defined.

Lemma CleanExpired_spec_witness :
  let c := mkImageCache (entries cache2) "data" 2 2 (stats cache2) in
  let '(c', fs', count) := CleanExpired (fun m => map_to_list m) c ∅ 6 in
  (ttl c = 0%Z -> c' = c /\ fs' = ∅ /\ count = 0%Z) /\
  (ttl c <> 0%Z ->
   entries c' = filter (fun kv => ~ (ttl c < 6 - CreatedAt kv.2)%Z) (entries c) /\
   count = (Z.of_nat (size (entries c)) - Z.of_nat (size (entries c')))%Z /\
   STotalEntries (stats c') = (STotalEntries (stats c) - count)%Z).
Proof.
  intros c. exact (CleanExpired_spec (fun m => map_to_list m) (fun m => reflexivity _) c ∅ 6).
Defined.

Lemma Clear_spec_witness :
  let fs := {["data/a.png" := [Byte.x01]]} in
  let '(c', fs') := Clear (fun m => map_to_list m) cache2 fs in
  entries c' = ∅ /\ stats c' = mkCacheStats 0 0 0 0 /\
  (forall k e, entries cache2 !! k = Some e -> FilePath e <> "" ->
     fs' !! FilePath e = None /\ fs' !! String.append (FilePath e) ".meta" = None) /\
  (forall p, (forall k e, entries cache2 !! k = Some e ->
                p <> FilePath e /\ p <> String.append (FilePath e) ".meta") ->
     fs' !! p = fs !! p).
Proof.
  intros fs. exact (Clear_spec (fun m => map_to_list m) (fun m => reflexivity _) cache2 fs).
Defined.

End CacheOpsFacts.

Module QueueCleanupFacts.
Import QueueCleanup.

(** At any instant later than ten minutes after Go's zero time, one
    [cleanup] tick deletes every successful result, however recent, and
    keeps every failed result: [GetResult] then finds only failures. *)
Theorem cleanup_drops_all_successes (results : gmap string QueueResult) (now : Z)
    (Hnow : (zeroTime + tenMinutes < now)%Z) (id : string) :
  GetResult (cleanup results now) id =
    match results !! id with
    | Some r => match Error r with Some _ => Some r | None => None end
    | None => None
    end.
Proof.
  unfold GetResult, cleanup. rewrite map_lookup_filter.
  destruct (results !! id) as [r|]; [|done]. cbn.
  unfold removable.
  assert (Hs : Z.ltb tenMinutes (Sub now zeroTime) = true).
  { apply Z.ltb_lt. unfold Sub, maxDuration, minDuration, tenMinutes, zeroTime in *. lia. }
  destruct (Error r); [|rewrite Hs].
  - by rewrite option_guard_True.
  - by rewrite option_guard_False.
Qed.

Lemma cleanup_drops_all_successes_witness :
  GetResult (cleanup {["img1" := mkQueueResult "img1" [Byte.x01] None;
                       "img2" := mkQueueResult "img2" [] (Some "timeout")]} 0) "img1" =
  None.
Proof.
  exact (cleanup_drops_all_successes
           {["img1" := mkQueueResult "img1" [Byte.x01] None;
             "img2" := mkQueueResult "img2" [] (Some "timeout")]} 0 (ltac:(vm_compute; reflexivity)) "img1").
Defined.

End QueueCleanupFacts.

Module EmbedCacheFacts.
Import Embedding EmbedCache.

Lemma uncached_texts cache now texts :
  map snd (List.filter (fun p => match getFromCache cache now p.2 with
                                 | Some _ => false | None => true end)
             (combine (seq 0 (length texts)) texts)) =
  List.filter (fun t => match getFromCache cache now t with
                        | Some _ => false | None => true end) texts.
Proof.
  generalize 0%nat. induction texts as [|t texts IH]; intros n; [done|].
  cbn [length seq combine List.filter snd].
  destruct (getFromCache cache now t); cbn; [apply IH|]. f_equal. apply IH.
Qed.

Lemma uncached_index_bound cache now texts :
  Forall (fun p => p.1 < length texts)%nat
    (List.filter (fun p => match getFromCache cache now p.2 with
                           | Some _ => false | None => true end)
       (combine (seq 0 (length texts)) texts)).
Proof.
  apply List.Forall_forall. intros [i t] Hin. apply filter_In in Hin as [Hin _].
  apply in_combine_l, in_seq in Hin. cbn. lia.
Qed.

Lemma fill_short now us nv out cache :
  (length nv < length us)%nat -> exists cache', fill now us nv out cache = inl cache'.
Proof.
  revert nv out cache. induction us as [|[i t] us IH]; intros nv out cache H;
    cbn in H; [lia|].
  destruct nv as [|v nv]; cbn; [by eexists|]. apply IH. cbn in H. lia.
Qed.

Lemma fill_ok now us nv out cache out' cache' :
  fill now us nv out cache = inr (out', cache') ->
  length out' = length out /\
  (forall t, In t (map snd us) -> exists v, cache' !! t = Some (mkCachedEmbedding v now)) /\
  (forall t, ~ In t (map snd us) -> cache' !! t = cache !! t).
Proof.
  revert nv out cache. induction us as [|[i t] us IH]; intros nv out cache H; cbn in H.
  - injection H as <- <-. split; [done|]. split; [done|done].
  - destruct nv as [|v nv]; [discriminate|].
    destruct (IH _ _ _ H) as (Hl & Hin & Hout). rewrite length_insert in Hl.
    split; [done|]. split.
    + intros t' [<-|Ht']; [|by apply Hin].
      destruct (in_dec String.string_dec t (map snd us)) as [Hu|Hu]; [by apply Hin|].
      exists v. rewrite Hout by done. by rewrite lookup_insert_eq.
    + intros t' Ht'. cbn in Ht'. rewrite Hout by tauto.
      rewrite lookup_insert_ne; [done|]. intros ->. tauto.
Qed.

Lemma filter_all_cached cache now texts n :
  Forall (fun t => is_Some (getFromCache cache now t)) texts ->
  List.filter (fun p => match getFromCache cache now p.2 with
                        | Some _ => false | None => true end)
    (combine (seq n (length texts)) texts) = [].
Proof.
  revert n. induction texts as [|t texts IH]; intros n Hc; [done|].
  inversion Hc as [|? ? [v Hv] Hc']; subst. cbn. rewrite Hv. by apply IH.
Qed.

Lemma in_combine_seq {A} (l : list A) n j t :
  In (j, t) (combine (seq n (length l)) l) <-> (n <= j)%nat /\ l !! (j - n)%nat = Some t.
Proof.
  revert n. induction l as [|a l IH]; intros n; cbn [length seq combine].
  - cbn. split; [done|]. intros [_ H]. by rewrite lookup_nil in H.
  - cbn [In]. rewrite IH. split.
    + intros [[= <- <-]|[Hn Hl]]; [by rewrite Nat.sub_diag|].
      split; [lia|]. by replace (j - n)%nat with (S (j - S n)) by lia.
    + intros [Hn Hl]. destruct (decide (j = n)) as [->|Hne].
      * left. rewrite Nat.sub_diag in Hl. by injection Hl as ->.
      * right. split; [lia|]. by replace (j - n)%nat with (S (j - S n)) in Hl by lia.
Qed.

Lemma map_list_lookup {A B} (f : A -> B) (l : list A) i :
  map f l !! i = f <$> l !! i.
Proof.
  revert i. induction l as [|a l IH]; intros [|i]; cbn; [done|done|done|apply IH].
Qed.

Lemma uncached_indices_nodup (P : nat * string -> bool) (texts : list string) n :
  Forall (fun i => n <= i)%nat (map fst (List.filter P (combine (seq n (length texts)) texts))) /\
  NoDup (map fst (List.filter P (combine (seq n (length texts)) texts))).
Proof.
  revert n. induction texts as [|t texts IH]; intros n; [split; constructor|].
  cbn [length seq combine List.filter].
  destruct (IH (S n)) as [Hge Hnd].
  destruct (P (n, t)); cbn [map fst].
  - split; [constructor; [lia|]|constructor].
    + eapply List.Forall_impl; [|exact Hge]. cbn. lia.
    + rewrite list_elem_of_In. intros Hin.
      rewrite List.Forall_forall in Hge. specialize (Hge n Hin). lia.
    + exact Hnd.
  - split; [|exact Hnd]. eapply List.Forall_impl; [|exact Hge]. cbn. lia.
Qed.

Lemma fill_entries now us nv out cache out' cache' :
  NoDup (map fst us) -> NoDup (map snd us) ->
  fill now us nv out cache = inr (out', cache') ->
  (forall i t, In (i, t) us -> (i < length out)%nat ->
     exists v, out' !! i = Some (Some v) /\ cache' !! t = Some (mkCachedEmbedding v now)) /\
  (forall i, ~ In i (map fst us) -> out' !! i = out !! i) /\
  (forall t, ~ In t (map snd us) -> cache' !! t = cache !! t).
Proof.
  revert nv out cache. induction us as [|[i t] us IH]; intros nv out cache Hf Hs H;
    cbn in H.
  - injection H as <- <-. split; [done|]. split; done.
  - destruct nv as [|v nv]; [discriminate|].
    cbn [map fst snd] in Hf, Hs.
    apply NoDup_cons in Hf as [Hni Hf]. apply NoDup_cons in Hs as [Hnt Hs].
    assert (Hni' : ~ In i (map fst us)) by (intros Hc; apply Hni; by apply list_elem_of_In).
    assert (Hnt' : ~ In t (map snd us)) by (intros Hc; apply Hnt; by apply list_elem_of_In).
    clear Hni Hnt. rename Hni' into Hni. rename Hnt' into Hnt.
    destruct (IH _ _ _ Hf Hs H) as (Hin & Hio & Hic).
    split; [|split].
    + intros i' t' [[= <- <-]|Hi'] Hlt.
      * exists v. rewrite Hio, Hic by done.
        rewrite list_lookup_insert_eq by done. by rewrite lookup_insert_eq.
      * apply Hin; [done|]. by rewrite length_insert.
    + intros i' Hi'. cbn in Hi'. rewrite Hio by tauto.
      apply list_lookup_insert_ne. intros ->. tauto.
    + intros t' Ht'. cbn in Ht'. rewrite Hic by tauto.
      apply lookup_insert_ne. intros ->. tauto.
Qed.

Lemma in_uncached cache now texts t :
  In t (List.filter (fun t => match getFromCache cache now t with
                              | Some _ => false | None => true end) texts) <->
  In t texts /\ getFromCache cache now t = None.
Proof.
  rewrite filter_In. destruct (getFromCache cache now t); intuition congruence.
Qed.

Lemma fresh_get cache now t v :
  cache !! t = Some (mkCachedEmbedding v now) -> getFromCache cache now t = Some v.
Proof.
  intros H. unfold getFromCache. rewrite H. cbn. rewrite Z.sub_diag.
  destruct (Z.ltb_spec cacheTTL 0); [unfold cacheTTL in *; lia|done].
Qed.

Lemma EmbedBatch_ok_lookup (createEmbedding : list string -> option (list (list float)))
    (batchSize : nat) cache now texts cache' out :
  NoDup texts ->
  EmbedBatch createEmbedding batchSize cache now texts = (cache', EmbedOk out) ->
  length out = length texts /\
  forall j t, texts !! j = Some t ->
    exists v, out !! j = Some v /\ getFromCache cache' now t = Some v.
Proof.
  intros Hnd Hok. unfold EmbedBatch in Hok. destruct texts as [|t0 ts].
  { injection Hok as <- <-. split; [done|]. intros j t H. by rewrite lookup_nil in H. }
  set (texts := t0 :: ts) in *.
  set (P := fun p : nat * string => match getFromCache cache now p.2 with
                                    | Some _ => false | None => true end).
  pose proof (uncached_texts cache now texts) as Hu.
  pose proof (uncached_indices_nodup P texts 0) as [_ Hfst].
  assert (Hmem : forall j t, texts !! j = Some t ->
            In (j, t) (List.filter P (combine (seq 0 (length texts)) texts)) <->
            getFromCache cache now t = None).
  { intros j t Hj. rewrite filter_In, in_combine_seq, Nat.sub_0_r.
    change (P (j, t)) with (match getFromCache cache now t with
                            | Some _ => false | None => true end).
    destruct (getFromCache cache now t); split; intuition (try lia; congruence). }
  assert (Hidx : forall j t, texts !! j = Some t ->
            In j (map fst (List.filter P (combine (seq 0 (length texts)) texts))) ->
            getFromCache cache now t = None).
  { intros j t Hj Hin. apply in_map_iff in Hin as [[j' t''] [Hj' Hin]].
    cbn in Hj'. subst j'. pose proof Hin as Hin'.
    apply filter_In in Hin' as [Hc _]. apply in_combine_seq in Hc as [_ Hc].
    rewrite Nat.sub_0_r, Hj in Hc. injection Hc as <-. by apply (Hmem j). }
  change (List.filter (fun p => match getFromCache cache now p.2 with
                                | Some _ => false | None => true end)
            (combine (seq 0 (length texts)) texts))
    with (List.filter P (combine (seq 0 (length texts)) texts)) in Hok, Hu.
  destruct (List.filter P (combine (seq 0 (length texts)) texts)) as [|u us] eqn:U.
  - assert (Hc : cache' = cache) by congruence.
    assert (Ho : out = map vec_or_nil (map (getFromCache cache now) texts)) by congruence.
    subst cache' out. rewrite !length_map. split; [done|].
    intros j t Hj. destruct (getFromCache cache now t) as [w|] eqn:G.
    + exists w. split; [|done]. rewrite !map_list_lookup, Hj. cbn. by rewrite G.
    + apply (Hmem j t Hj) in G. destruct G.
  - destruct (embedBatchUncached _ _ _) as [nv|]; [|discriminate].
    destruct (fill now (u :: us) nv _ cache) as [c'|[out0 c']] eqn:F; [discriminate|].
    assert (Hc : cache' = c') by congruence.
    assert (Ho : out = map vec_or_nil out0) by congruence.
    subst cache' out.
    assert (Hsnd : NoDup (map snd (u :: us))).
    { rewrite Hu. apply NoDup_ListNoDup. apply List.NoDup_filter.
      by apply NoDup_ListNoDup. }
    pose proof (fill_ok _ _ _ _ _ _ _ F) as [Hl _].
    destruct (fill_entries _ _ _ _ _ _ _ Hfst Hsnd F) as (Hin & Hio & Hic).
    rewrite length_map, Hl, length_map. split; [done|].
    intros j t Hj. destruct (getFromCache cache now t) as [w|] eqn:G.
    + exists w. rewrite map_list_lookup, Hio.
      2:{ intros Hc. specialize (Hidx j t Hj Hc). congruence. }
      rewrite map_list_lookup, Hj. cbn. rewrite G. split; [done|].
      unfold getFromCache. rewrite Hic; [fold (getFromCache cache now t); done|].
      rewrite Hu, in_uncached. intros [_ Hn]. congruence.
    + apply (Hmem j t Hj) in G.
      destruct (Hin j t G) as [v [Ho Hc]].
      { rewrite length_map. by apply lookup_lt_Some in Hj. }
      exists v. rewrite map_list_lookup, Ho. split; [done|]. by apply fresh_get.
Qed.

(** When every text has a fresh cache entry, [EmbedBatch] returns the
    cached vectors in order and leaves the cache as it is, without calling
    the embedding API (whatever it would answer). *)
Theorem EmbedBatch_all_cached (createEmbedding : list string -> option (list (list float)))
    (batchSize : nat) (cache : gmap string CachedEmbedding) (now : Z) (texts : list string)
    (Hc : Forall (fun t => is_Some (getFromCache cache now t)) texts) :
  EmbedBatch createEmbedding batchSize cache now texts =
    (cache, EmbedOk (map (fun t => vec_or_nil (getFromCache cache now t)) texts)).
Proof.
  unfold EmbedBatch. destruct texts as [|t0 ts]; [done|].
  rewrite filter_all_cached by done. by rewrite map_map.
Qed.

(** A successful [EmbedBatch] returns one vector per input text, and
    afterwards every one of the texts has a fresh cache entry. *)
Theorem EmbedBatch_success_caches_all (createEmbedding : list string -> option (list (list float)))
    (batchSize : nat) (cache : gmap string CachedEmbedding) (now : Z) (texts : list string) :
  match EmbedBatch createEmbedding batchSize cache now texts with
  | (cache', EmbedOk out) =>
      length out = length texts /\
      Forall (fun t => is_Some (getFromCache cache' now t)) texts
  | _ => True
  end.
Proof.
  unfold EmbedBatch. destruct texts as [|t0 ts]; [done|].
  set (texts := t0 :: ts).
  pose proof (uncached_texts cache now texts) as Hu.
  destruct (List.filter _ (combine _ _)) as [|u us] eqn:U.
  - split; [by rewrite !length_map|].
    apply List.Forall_forall. intros t Ht.
    destruct (getFromCache cache now t) eqn:G; [by eexists|].
    assert (In t (List.filter (fun t => match getFromCache cache now t with
                                        | Some _ => false | None => true end) texts))
      by (apply in_uncached; tauto).
    rewrite <- Hu in H. destruct H.
  - destruct (embedBatchUncached _ _ _) as [nv|]; [|done].
    destruct (fill now (u :: us) nv _ cache) as [c'|[out cache']] eqn:F; [done|].
    apply fill_ok in F as (Hl & Hin & Hout).
    split; [by rewrite length_map, Hl, length_map|].
    apply List.Forall_forall. intros t Ht.
    destruct (getFromCache cache now t) as [v|] eqn:G.
    + unfold getFromCache. rewrite Hout; [fold (getFromCache cache now t); by rewrite G|].
      rewrite Hu, in_uncached. intros [_ Hn]. congruence.
    + destruct (Hin t) as [v Hv].
      { rewrite Hu, in_uncached. tauto. }
      unfold getFromCache. rewrite Hv. cbn. rewrite Z.sub_diag.
      destruct (Z.ltb_spec cacheTTL 0); [unfold cacheTTL in *; lia|by eexists].
Qed.

(** When the embedding API answers with fewer vectors than there are
    uncached texts, [EmbedBatch] panics on [newVectors[i]] instead of
    returning an error. *)
Theorem EmbedBatch_short_answer_panics (createEmbedding : list string -> option (list (list float)))
    (batchSize : nat) (cache : gmap string CachedEmbedding) (now : Z) (texts : list string)
    (nv : list (list float))
    (Hapi : embedBatchUncached createEmbedding batchSize
              (List.filter (fun t => match getFromCache cache now t with
                                     | Some _ => false | None => true end) texts) = Some nv)
    (Hshort : (length nv < length (List.filter (fun t => match getFromCache cache now t with
                                     | Some _ => false | None => true end) texts))%nat) :
  (EmbedBatch createEmbedding batchSize cache now texts).2 = EmbedPanic.
Proof.
  unfold EmbedBatch. destruct texts as [|t0 ts]; [cbn in Hshort; lia|].
  set (texts := t0 :: ts) in *.
  pose proof (uncached_texts cache now texts) as Hu.
  destruct (List.filter _ (combine _ _)) as [|u us] eqn:U.
  { rewrite <- Hu in Hshort. cbn in Hshort. lia. }
  rewrite Hu, Hapi.
  destruct (fill_short now (u :: us) nv (map (getFromCache cache now) texts) cache)
    as [c' F].
  { rewrite <- (length_map snd), Hu. done. }
  by rewrite F.
Qed.

(** A successful [EmbedBatch] over distinct texts, repeated at the same
    instant, is answered from the cache: it returns the same vectors,
    leaves the cache as it is and does not depend on the embedding API. *)
Theorem EmbedBatch_repeat_served_from_cache
    (createEmbedding createEmbedding2 : list string -> option (list (list float)))
    (batchSize batchSize2 : nat) (cache : gmap string CachedEmbedding) (now : Z)
    (texts : list string) (cache' : gmap string CachedEmbedding) (out : list (list float))
    (Hnd : NoDup texts)
    (Hok : EmbedBatch createEmbedding batchSize cache now texts = (cache', EmbedOk out)) :
  EmbedBatch createEmbedding2 batchSize2 cache' now texts = (cache', EmbedOk out).
Proof.
  destruct (EmbedBatch_ok_lookup _ _ _ _ _ _ _ Hnd Hok) as [Hl Hlk].
  unfold EmbedBatch. destruct texts as [|t0 ts].
  { destruct out; [done|discriminate]. }
  rewrite filter_all_cached.
  2:{ apply List.Forall_forall. intros t Ht. apply list_elem_of_In in Ht.
      apply list_elem_of_lookup_1 in Ht as [j Hj].
      destruct (Hlk j t Hj) as [v [_ Hv]]. by eexists. }
  rewrite map_map. do 2 f_equal. apply list_eq. intros j.
  rewrite map_list_lookup.
  destruct ((t0 :: ts) !! j) as [t|] eqn:Hj.
  - destruct (Hlk j t Hj) as [v [Ho Hv]]. by rewrite Ho; cbn; rewrite Hv.
  - apply lookup_ge_None in Hj. symmetry. apply lookup_ge_None. lia.
Qed.

Lemma EmbedBatch_repeat_served_from_cache_witness :
  let api := fun ts : list string => Some (map (fun _ => [1%float]) ts) in
  let cache1 := <["b" := mkCachedEmbedding [1%float] 5]>
                  {["a" := mkCachedEmbedding [1%float] 5]} in
  EmbedBatch api 1 ∅ 5 ["a"; "b"] = (cache1, EmbedOk [[1%float]; [1%float]]) /\
  EmbedBatch (fun _ => None) 3 cache1 5 ["a"; "b"] = (cache1, EmbedOk [[1%float]; [1%float]]).
Proof.
  cbv zeta.
  assert (H1 : EmbedBatch (fun ts : list string => Some (map (fun _ => [1%float]) ts)) 1 ∅ 5
                 ["a"; "b"]
               = (<["b" := mkCachedEmbedding [1%float] 5]>
                    {["a" := mkCachedEmbedding [1%float] 5]}, EmbedOk [[1%float]; [1%float]]))
    by (vm_compute; reflexivity).
  split; [exact H1|].
  apply (EmbedBatch_repeat_served_from_cache
           (fun ts : list string => Some (map (fun _ => [1%float]) ts)) (fun _ => None) 1 3
           ∅ 5 ["a"; "b"]).
  - repeat constructor; set_solver.
  - exact H1.
Defined.

Lemma EmbedBatch_all_cached_witness :
  EmbedBatch (fun _ => None) 1 {["a" := mkCachedEmbedding [] 0]} 5 ["a"] =
    ({["a" := mkCachedEmbedding [] 0]},
     EmbedOk (map (fun t => vec_or_nil (getFromCache {["a" := mkCachedEmbedding [] 0]} 5 t)) ["a"])).
Proof.
  apply (EmbedBatch_all_cached (fun _ => None) 1 {["a" := mkCachedEmbedding [] 0]} 5 ["a"]).
  constructor; [eexists; vm_compute; reflexivity|constructor].
Defined.

Lemma EmbedBatch_short_answer_panics_witness :
  (EmbedBatch (fun _ => Some []) 1 ∅ 0 ["a"; "b"]).2 = EmbedPanic.
Proof.
  apply (EmbedBatch_short_answer_panics (fun _ => Some []) 1 ∅ 0 ["a"; "b"] []);
    vm_compute; [reflexivity|lia].
Defined.

End EmbedCacheFacts.

Module BiliFrameFacts.
Import Bilibili BiliFrame.
Local Open Scope Z_scope.

Lemma go_byte_val y : Z.of_N (Byte.to_N (go_byte y)) = y mod 256.
Proof.
  unfold go_byte. change 255 with (Z.ones 8). rewrite (Z.land_ones y 8) by lia. change (2 ^ 8) with 256.
  pose proof (Z.mod_pos_bound y 256 ltac:(lia)) as Hb.
  destruct (Byte.of_N (Z.to_N (y mod 256))) eqn:E.
  - apply Byte.to_of_N in E. rewrite E. lia.
  - apply Byte.of_N_None_iff in E. lia.
Qed.

Lemma be32_decode x :
  0 <= x < 2 ^ 32 ->
  Z.shiftr x 24 mod 256 * 16777216 + Z.shiftr x 16 mod 256 * 65536
  + Z.shiftr x 8 mod 256 * 256 + x mod 256 = x.
Proof.
  intros Hx. rewrite !Z.shiftr_div_pow2 by lia.
  change (2 ^ 24) with 16777216 in *. change (2 ^ 16) with 65536.
  change (2 ^ 8) with 256. change (2 ^ 32) with 4294967296 in Hx.
  assert (E1 : x / 16777216 = x / 65536 / 256) by (rewrite Z.div_div by lia; reflexivity).
  assert (E2 : x / 65536 = x / 256 / 256) by (rewrite Z.div_div by lia; reflexivity).
  pose proof (Z.div_mod (x / 65536) 256 ltac:(lia)).
  pose proof (Z.div_mod (x / 256) 256 ltac:(lia)).
  pose proof (Z.div_mod x 256 ltac:(lia)).
  assert (Hs : 0 <= x / 16777216 < 256) by (split; [apply Z.div_pos | apply Z.div_lt_upper_bound]; lia).
  rewrite (Z.mod_small (x / 16777216)) by lia.
  rewrite E1. rewrite E1 in Hs. rewrite <- E2 in *. lia.
Qed.

Lemma be32_shift (P F R : bytes) (j : Z) :
  0 <= j -> (Z.to_nat (j + 3) < length F)%nat ->
  be32 (app P (app F R)) (Z.of_nat (length P) + j) = be32 F j.
Proof.
  intros Hj Hl. unfold be32, byte_at.
  assert (Hn : forall c, 0 <= c <= 3 ->
    nth (Z.to_nat (Z.of_nat (length P) + j + c)) (app P (app F R)) Byte.x00 =
    nth (Z.to_nat (j + c)) F Byte.x00).
  { intros c Hc.
    replace (Z.to_nat (Z.of_nat (length P) + j + c)) with (length P + Z.to_nat (j + c))%nat
      by lia.
    rewrite app_nth2_plus. apply app_nth1. lia. }
  rewrite !Hn by lia.
  replace (Z.to_nat (Z.of_nat (length P) + j)) with (length P + Z.to_nat j)%nat by lia.
  rewrite app_nth2_plus, app_nth1 by lia. reflexivity.
Qed.

Lemma sendMessage_fields op body :
  0 <= op < 2 ^ 32 -> headerLength + Z.of_nat (length body) < 2 ^ 32 ->
  be32 (sendMessage op body) 0 = headerLength + Z.of_nat (length body) /\
  be32 (sendMessage op body) 8 = op /\
  length (sendMessage op body) = (16 + length body)%nat /\
  skipn 16 (sendMessage op body) = body.
Proof.
  intros Hop Hlen. unfold sendMessage. split; [|split; [|split]].
  - unfold be32, byte_at.
    change (Z.to_nat 0) with 0%nat. change (Z.to_nat (0 + 1)) with 1%nat.
    change (Z.to_nat (0 + 2)) with 2%nat. change (Z.to_nat (0 + 3)) with 3%nat.
    cbn [nth app].
    rewrite !go_byte_val. rewrite (Z.mod_small (headerLength + Z.of_nat (length body)) (2 ^ 32)) by (unfold headerLength in *; lia).
    apply be32_decode. unfold headerLength in *. lia.
  - unfold be32, byte_at.
    change (Z.to_nat 8) with 8%nat. change (Z.to_nat (8 + 1)) with 9%nat.
    change (Z.to_nat (8 + 2)) with 10%nat. change (Z.to_nat (8 + 3)) with 11%nat.
    cbn [nth app].
    rewrite !go_byte_val. by apply be32_decode.
  - reflexivity.
  - reflexivity.
Qed.

Local Abbreviation frames_bytes frames :=
  (List.concat (map (fun f : Z * bytes => sendMessage f.1 f.2) frames)).

Definition frame_ok (f : Z * bytes) : Prop :=
  0 <= f.1 < 2 ^ 32 /\ headerLength + Z.of_nat (length f.2) < 2 ^ 32.

Lemma frames_bytes_length frames :
  Forall frame_ok frames -> (length frames <= length (frames_bytes frames))%nat.
Proof.
  induction 1 as [|[op body] rest [Hop Hlen] _ IH]; [cbn; lia|].
  cbn [map List.concat fst snd] in *. rewrite length_app.
  destruct (sendMessage_fields op body Hop Hlen) as (_ & _ & Hl & _).
  cbn [length]. rewrite Hl. lia.
Qed.

Lemma handle_loop_frames J frames :
  Forall frame_ok frames ->
  forall P R acc fuel backing len,
  backing = app P (app (frames_bytes frames) R) ->
  len = Z.of_nat (length P + length (frames_bytes frames)) ->
  (length frames < fuel)%nat ->
  handle_loop J fuel backing len (Z.of_nat (length P)) acc =
  if existsb (fun f : Z * bytes => (f.1 =? operationMessage) && parseDanmaku_panics J f.2)
       frames
  then Panicked
  else Handled (app acc (map snd (List.filter (fun f : Z * bytes => f.1 =? operationMessage)
                                    frames))).
Proof.
  induction 1 as [|[op body] rest [Hop Hlen] Hrest IH];
    intros P R acc fuel backing len -> -> Hf; cbn [fst snd] in *.
  - destruct fuel as [|fuel]; [lia|]. cbn [handle_loop].
    cbn [map List.concat length]. rewrite Nat.add_0_r, Z.ltb_irrefl.
    cbn. by rewrite app_nil_r.
  - destruct fuel as [|fuel]; [cbn in Hf; lia|]. cbn [length] in Hf.
    destruct (sendMessage_fields op body Hop Hlen) as (Hpl & Hopr & Hl & Hsk).
    cbn [map List.concat]. cbn [fst snd].
    set (M := sendMessage op body) in *.
    set (T := frames_bytes rest).
    rewrite <- (app_assoc M T R).
    assert (HM : forall j, 0 <= j -> (Z.to_nat (j + 3) < length M)%nat ->
              be32 (app P (app M (app T R))) (Z.of_nat (length P) + j) = be32 M j)
      by (intros; apply be32_shift; lia).
    cbn [handle_loop].
    rewrite length_app, Hl.
    assert (Hb0 : be32 (app P (app M (app T R))) (Z.of_nat (length P)) =
                  16 + Z.of_nat (length body)).
    { rewrite <- (Z.add_0_r (Z.of_nat (length P))), HM by lia. exact Hpl. }
    rewrite Hb0, HM, Hopr by lia.
    unfold headerLength, operationMessage in *.
    replace (Z.of_nat (length P) <? Z.of_nat (length P + (16 + length body + length T)))
      with true by (symmetry; apply Z.ltb_lt; lia).
    replace (Z.of_nat (length P + (16 + length body + length T)) <?
             Z.of_nat (length P) + 16)
      with false by (symmetry; apply Z.ltb_ge; lia).
    replace (16 + Z.of_nat (length body) <? 16) with false
      by (symmetry; apply Z.ltb_ge; lia).
    assert (Hnext : Z.of_nat (length P) + (16 + Z.of_nat (length body)) =
                    Z.of_nat (length (app P M))) by (rewrite length_app, Hl; lia).
    assert (Hback : app P (app M (app T R)) = app (app P M) (app T R))
      by apply app_assoc.
    assert (Hlen' : Z.of_nat (length P + (16 + length body + length T)) =
                    Z.of_nat (length (app P M) + length T))
      by (rewrite length_app, Hl; lia).
    destruct (op =? 5) eqn:Eop.
    + unfold go_slice.
      replace ((0 <=? Z.of_nat (length P) + 16) &&
               (Z.of_nat (length P) + 16 <=?
                Z.of_nat (length P) + (16 + Z.of_nat (length body))) &&
               (Z.of_nat (length P) + (16 + Z.of_nat (length body)) <=?
                Z.of_nat (length (app P (app M (app T R))))))
        with true.
      2:{ symmetry. rewrite !length_app, Hl.
          apply andb_true_intro; split; [apply andb_true_intro; split|];
            apply Z.leb_le; lia. }
      replace (Z.to_nat (Z.of_nat (length P) + (16 + Z.of_nat (length body)) -
                         (Z.of_nat (length P) + 16)))
        with (length body) by lia.
      replace (Z.to_nat (Z.of_nat (length P) + 16)) with (length P + 16)%nat by lia.
      rewrite skipn_app, skipn_all2 by lia.
      replace (length P + 16 - length P)%nat with 16%nat by lia.
      rewrite skipn_app, Hsk, Hl.
      replace (16 - (16 + length body))%nat with 0%nat by lia.
      rewrite skipn_O, app_nil_l, firstn_app, firstn_all, Nat.sub_diag, firstn_O, app_nil_r.
      cbn [existsb fst snd]. rewrite Eop, andb_true_l.
      destruct (parseDanmaku_panics J body); [reflexivity|]. cbn [orb].
      rewrite Hnext, Hback, Hlen'.
      unfold T; rewrite (IH (app P M) R (app acc [body]) fuel _ _ eq_refl eq_refl) by lia.
      cbn [List.filter fst]. rewrite Eop. cbn [map snd]. by rewrite <- app_assoc.
    + cbn [existsb fst snd]. rewrite Eop, andb_false_l. cbn [orb].
      rewrite Hnext, Hback, Hlen'.
      unfold T; rewrite (IH (app P M) R acc fuel _ _ eq_refl eq_refl) by lia.
      cbn [List.filter fst]. by rewrite Eop.
Qed.

(** Framing round trip: when every operation code fits in 32 bits and
    every packet is shorter than 2^32 bytes, feeding [handleMessage] the
    concatenation of the [sendMessage] buffers of a list of frames (with
    any spare capacity) hands exactly the bodies of the MESSAGE frames, in
    order, to [parseDanmaku]; the framing itself never panics, and the
    only panic left is [parseDanmaku]'s on a MESSAGE body it cannot
    handle. *)
Theorem handleMessage_sendMessage_roundtrip (danmu_info0_singleton : bytes -> bool)
    (frames : list (Z * bytes)) (spare : bytes)
    (Hok : Forall frame_ok frames) :
  handleMessage danmu_info0_singleton (frames_bytes frames) spare =
  if existsb (fun f : Z * bytes =>
                (f.1 =? operationMessage) && parseDanmaku_panics danmu_info0_singleton f.2)
       frames
  then Panicked
  else Handled (map snd (List.filter (fun f : Z * bytes => f.1 =? operationMessage) frames)).
Proof.
  unfold handleMessage.
  pose proof (frames_bytes_length frames Hok).
  apply (handle_loop_frames danmu_info0_singleton frames Hok [] spare [] _ _ _
           eq_refl eq_refl). lia.
Qed.

Lemma handleMessage_sendMessage_roundtrip_witness :
  let J := fun b => if List.list_eq_dec Byte.byte_eq_dec b short_info_body then true else false in
  let frames := [(5, [Byte.x7b; Byte.x7d]); (3, short_info_body); (5, [])] in
  let frames2 := [(5, [Byte.x7b; Byte.x7d]); (5, short_info_body); (5, [])] in
  Forall frame_ok frames /\ Forall frame_ok frames2 /\
  handleMessage J (frames_bytes frames) [Byte.x00] = Handled [[Byte.x7b; Byte.x7d]; []] /\
  handleMessage J (frames_bytes frames2) [] = Panicked.
Proof.
  cbv zeta.
  assert (H : Forall frame_ok [(5, [Byte.x7b; Byte.x7d]); (3, short_info_body); (5, [])]).
  { repeat constructor; cbn; unfold headerLength; lia. }
  assert (H2 : Forall frame_ok [(5, [Byte.x7b; Byte.x7d]); (5, short_info_body); (5, [])]).
  { repeat constructor; cbn; unfold headerLength; lia. }
  split; [exact H|]. split; [exact H2|]. split.
  - rewrite (handleMessage_sendMessage_roundtrip _ _ [Byte.x00] H). vm_compute. reflexivity.
  - rewrite (handleMessage_sendMessage_roundtrip _ _ [] H2). vm_compute. reflexivity.
Defined.

End BiliFrameFacts.

Module DanmakuFilterFacts.
Import Bilibili.

Lemma filter_step_keywords st item :
  filterKeywords (filter_step st item).1 = filterKeywords st /\
  ((filter_step st item).2 = true ->
   item.1 <> "" /\ existsb (contains item.1) (filterKeywords st) = false).
Proof.
  destruct item as [text now]. unfold filter_step.
  destruct (String.eqb text "") eqn:E; [by split|].
  unfold shouldSendDanmaku.
  set (st1 := if (now - lastDedupTime st >? 300)%Z then _ else st).
  assert (K : filterKeywords st1 = filterKeywords st)
    by (unfold st1; by destruct (_ >? _)%Z).
  clearbody st1.
  destruct (match recentDanmaku st1 !! text with Some l => _ | None => false end);
    [by split|].
  destruct (existsb (contains text) (filterKeywords st1)) eqn:X; [by split|].
  cbn. split; [done|]. intros _. split.
  - by apply String.eqb_neq.
  - by rewrite <- K.
Qed.

(** Keyword filter: along any sequence of extracted texts, the published
    ones are never empty and never contain one of the adapter's filter
    keywords; the keyword list itself is left unchanged. *)
Theorem run_filter_never_publishes_filtered st items :
  filterKeywords (run_filter st items).1 = filterKeywords st /\
  Forall (fun item : string * Z =>
            item.1 <> "" /\ existsb (contains item.1) (filterKeywords st) = false)
    (run_filter st items).2.
Proof.
  revert st. induction items as [|item rest IH]; intros st; [by split|].
  cbn [run_filter].
  pose proof (filter_step_keywords st item) as [K P].
  destruct (filter_step st item) as [st1 ok]. cbn [fst snd] in K, P.
  specialize (IH st1). destruct (run_filter st1 rest) as [st2 pub].
  cbn [fst snd] in *. rewrite K in IH. destruct IH as [K2 F].
  split; [done|]. destruct ok; [constructor; auto|exact F].
Qed.

End DanmakuFilterFacts.

